(** * The s/c-metric engine of causal-learn ([causallearn/graph/SCM.py])

    A shallow embedding of the class [SCM] and proofs about the three
    metrics it stores.

    Modelling conventions.
    - A Python [float] is modelled by an exact rational ([Q]); the one
      float-specific behaviour the constructor depends on, namely that [/]
      raises [ZeroDivisionError] on a zero divisor instead of producing an
      infinity or a NaN, is modelled by [py_div].
    - A Python [int] is a [Z].
    - A Python [dict] is an association list in insertion order, so that
      iteration order ([.items()]) is kept.
    - An exception is the left summand of the result of [SCM]. *)

From Stdlib Require Import String List Bool Arith ZArith QArith Lia.
From Stdlib Require Import Permutation.
Import ListNotations.

Local Open Scope Z_scope.

(** ** Exceptions *)

Inductive exn : Type :=
| AssertionError (msg : string)
| ZeroDivisionError.

Definition result (A : Type) : Type := (exn + A)%type.

Definition ret {A : Type} (a : A) : result A := inr a.
Definition raise {A : Type} (e : exn) : result A := inl e.

Definition bind {A B : Type} (m : result A) (f : A -> result B) : result B :=
  match m with
  | inl e => inl e
  | inr a => f a
  end.

Notation "x <- m ;; k" := (bind m (fun x => k))
  (at level 61, m at next level, right associativity).

(** [a / b] on a float [a] and an int [b]. *)
Definition py_div (a : Q) (b : Z) : result Q :=
  if b =? 0 then raise ZeroDivisionError else ret (a / inject_Z b)%Q.

(** ** The graph interface *)

(** Modelled from the spec: the class [Graph] ([causallearn/graph/Graph.py])
    is imported by [SCM.py] and is not part of the sources at hand.  The
    constructor uses four of its members, [node_map], [get_num_nodes],
    [get_node] and [is_dconnected_to], and [get_name] of its nodes; they are
    the fields below, left arbitrary.  [Node] is the graph's own type of
    node handles, so that a handle of one graph cannot be passed to the
    other. *)

Record Graph : Type := mkGraph {
  Node : Type;
  get_name : Node -> string;
  node_map : list (Node * Z);
  get_num_nodes : Z;
  get_node : string -> Node;
  is_dconnected_to : Node -> Node -> list Node -> bool
}.

(** ** Python built-ins *)

(** [d[k] = v] on an insertion-ordered dict. *)
Fixpoint dict_set {V : Type} (k : string) (v : V) (d : list (string * V))
  : list (string * V) :=
  match d with
  | [] => [(k, v)]
  | (k', v') :: d' =>
      if String.eqb k' k then (k', v) :: d' else (k', v') :: dict_set k v d'
  end.

(** [x in l] for a list of strings. *)
Definition str_in (x : string) (l : list string) : bool :=
  existsb (String.eqb x) l.

(** [set(l1) == set(l2)]. *)
Definition set_eq (l1 l2 : list string) : bool :=
  forallb (fun x => str_in x l2) l1 && forallb (fun x => str_in x l1) l2.

(** [range(lo, hi)]. *)
Definition range (lo hi : Z) : list Z :=
  map (fun i => lo + Z.of_nat i) (seq 0 (Z.to_nat (hi - lo))).

(** [itertools.combinations(l, r)]: the [r]-element subsequences of [l], in
    lexicographic order of positions. *)
Fixpoint combinations {A : Type} (l : list A) (r : nat) : list (list A) :=
  match r with
  | O => [[]]
  | S r' =>
      match l with
      | [] => []
      | x :: l' => map (cons x) (combinations l' r') ++ combinations l' r
      end
  end.

(** ** The constructor *)

(** [{node.get_name(): node_id for node, node_id in g.node_map.items()}] *)
Definition name_map (g : Graph) : list (string * Z) :=
  fold_left (fun d (e : Node g * Z) => dict_set (get_name g (fst e)) (snd e) d)
            (node_map g) [].

Definition keys {V : Type} (d : list (string * V)) : list string := map fst d.

(** The locals of one iteration of the loop over [k]. *)
Record acc : Type := mkAcc {
  SM_k : Q;
  CM_k : Q;
  SCM_k : Q;
  n_C_k_con : Z;
  n_C_k_sep : Z
}.

Definition acc0 : acc := mkAcc 0 0 0 0 0.

(** The three private attributes [__SM], [__CM] and [__SCM]. *)
Record metrics : Type := mkMetrics {
  __SM : Q;
  __CM : Q;
  __SCM : Q
}.

Section Constructor.

Variables truth est : Graph.

(** Lines 53-67: the body of the innermost loop, once the two [continue]
    tests have been passed. *)
Definition classify (truth_S_nodes : list (Node truth))
           (est_S_nodes : list (Node est))
           (truth_x_node : Node truth) (est_x_node : Node est)
           (y_name : string) (a : acc) : acc :=
  let truth_y_node := get_node truth y_name in
  let est_y_node := get_node est y_name in
  let truth_i_con :=
    is_dconnected_to truth truth_x_node truth_y_node truth_S_nodes in
  let est_i_con :=
    is_dconnected_to est est_x_node est_y_node est_S_nodes in
  let SCM_k' :=
    (SCM_k a + (if negb (Bool.eqb truth_i_con est_i_con) then 1 else 0))%Q in
  if truth_i_con then
    mkAcc (SM_k a)
          (CM_k a + (if est_i_con then 0 else 1))%Q
          SCM_k'
          (n_C_k_con a + 1)
          (n_C_k_sep a)
  else
    mkAcc (SM_k a + (if est_i_con then 1 else 0))%Q
          (CM_k a)
          SCM_k'
          (n_C_k_con a)
          (n_C_k_sep a + 1).

(** Lines 50-67: one iteration of the loop over [y_name]. *)
Definition y_step (S_names : list string)
           (truth_S_nodes : list (Node truth))
           (est_S_nodes : list (Node est))
           (x_name : string)
           (truth_x_node : Node truth) (est_x_node : Node est)
           (a : acc) (y : string * Z) : acc :=
  let y_name := fst y in
  if str_in y_name S_names then a
  else if String.eqb x_name y_name then a
  else classify truth_S_nodes est_S_nodes truth_x_node est_x_node y_name a.

(** Lines 46-67: one iteration of the loop over [x_name]. *)
Definition x_step (truth_node_map : list (string * Z))
           (S_names : list string)
           (truth_S_nodes : list (Node truth))
           (est_S_nodes : list (Node est))
           (a : acc) (x : string * Z) : acc :=
  let x_name := fst x in
  if str_in x_name S_names then a
  else
    let truth_x_node := get_node truth x_name in
    let est_x_node := get_node est x_name in
    fold_left (y_step S_names truth_S_nodes est_S_nodes
                      x_name truth_x_node est_x_node)
              truth_node_map a.

(** Lines 42-67: one iteration of the loop over [S]. *)
Definition S_step (truth_node_map : list (string * Z)) (a : acc)
           (S : list (string * Z)) : acc :=
  let S_names := map fst S in
  let truth_S_nodes := map (fun t => get_node truth (fst t)) S in
  let est_S_nodes := map (fun t => get_node est (fst t)) S in
  fold_left (x_step truth_node_map S_names truth_S_nodes est_S_nodes)
            truth_node_map a.

(** Lines 35-67: the locals at the end of the loops over [S], [x_name]
    and [y_name] of iteration [k]. *)
Definition loop_k (truth_node_map : list (string * Z)) (k : Z) : acc :=
  let S_sets := combinations truth_node_map (Z.to_nat k) in
  fold_left (S_step truth_node_map) S_sets acc0.

(** Lines 35-71: one iteration of the loop over [k]. *)
Definition k_step (truth_node_map : list (string * Z)) (self : metrics)
           (k : Z) : result metrics :=
  let a := loop_k truth_node_map k in
  s <- py_div (SM_k a) (n_C_k_sep a) ;;
  c <- py_div (SM_k a) (n_C_k_con a) ;;
  sc <- py_div (SCM_k a) (n_C_k_sep a + n_C_k_con a) ;;
  ret (mkMetrics (__SM self + s) (__CM self + c) (__SCM self + sc))%Q.

(** [for k in ks: ...], left at the first exception. *)
Fixpoint k_loop (truth_node_map : list (string * Z)) (ks : list Z)
         (self : metrics) : result metrics :=
  match ks with
  | [] => ret self
  | k :: ks' =>
      self' <- k_step truth_node_map self k ;;
      k_loop truth_node_map ks' self'
  end.

(** [SCM.__init__]: the instance, or the exception raised. *)
Definition SCM : result metrics :=
  let truth_node_map := name_map truth in
  let est_node_map := name_map est in
  if negb (set_eq (keys truth_node_map) (keys est_node_map)) then
    raise (AssertionError "The two graphs have different sets of node names.")
  else
    let N := get_num_nodes truth in
    self <- k_loop truth_node_map (range 1 (N - 1)) (mkMetrics 0 0 0) ;;
    s <- py_div (__SM self) (N - 1) ;;
    c <- py_div (__CM self) (N - 1) ;;
    sc <- py_div (__SCM self) (N - 1) ;;
    ret (mkMetrics s c sc).

End Constructor.

Definition get_s_metric (self : metrics) : Q := __SM self.
Definition get_c_metric (self : metrics) : Q := __CM self.
Definition get_sc_metric (self : metrics) : Q := __SCM self.

(** ** The metrics as the specification words them

    These definitions do not follow the loops of the constructor; they count
    over the list of all triples (X, Y, S) of a given conditioning-set
    size. *)

Definition triple : Type := (string * string * list string)%type.

(** The node names of a graph, in the order the constructor iterates them. *)
Definition node_names (g : Graph) : list string := keys (name_map g).

(** What graph [g] answers on the triple (X, Y, S), all three given by
    name and resolved to handles of [g]. *)
Definition dconnected (g : Graph) (t : triple) : bool :=
  let '(x, y, s) := t in
  is_dconnected_to g (get_node g x) (get_node g y) (map (get_node g) s).

(** Ordered pairs (X, Y) of distinct names outside [s]. *)
Definition outside_pair (s : list string) (p : string * string) : bool :=
  negb (str_in (fst p) s) && negb (str_in (snd p) s)
  && negb (String.eqb (fst p) (snd p)).

Definition spec_pairs (names s : list string) : list (string * string) :=
  filter (outside_pair s) (list_prod names names).

(** All triples (X, Y, S) with |S| = k. *)
Definition spec_triples (names : list string) (k : nat) : list triple :=
  flat_map (fun s => map (fun p => (fst p, snd p, s)) (spec_pairs names s))
           (combinations names k).

Definition count {A : Type} (p : A -> bool) (l : list A) : Z :=
  Z.of_nat (List.length (filter p l)).

Section Spec.

Variables truth est : Graph.

Definition is_connected (t : triple) : bool := dconnected truth t.
Definition is_separated (t : triple) : bool := negb (dconnected truth t).
Definition is_missed (t : triple) : bool :=
  dconnected truth t && negb (dconnected est t).
Definition is_spurious (t : triple) : bool :=
  negb (dconnected truth t) && dconnected est t.
Definition is_disagreement (t : triple) : bool :=
  negb (Bool.eqb (dconnected truth t) (dconnected est t)).

Definition triples_of_size (k : Z) : list triple :=
  spec_triples (node_names truth) (Z.to_nat k).

Definition connected_count (k : Z) : Z := count is_connected (triples_of_size k).
Definition separated_count (k : Z) : Z := count is_separated (triples_of_size k).
Definition missed_count (k : Z) : Z := count is_missed (triples_of_size k).
Definition spurious_count (k : Z) : Z := count is_spurious (triples_of_size k).
Definition disagreement_count (k : Z) : Z :=
  count is_disagreement (triples_of_size k).

Definition spec_s_score (k : Z) : Q :=
  inject_Z (spurious_count k) / inject_Z (separated_count k).
Definition spec_c_score (k : Z) : Q :=
  inject_Z (missed_count k) / inject_Z (connected_count k).
Definition spec_sc_score (k : Z) : Q :=
  inject_Z (disagreement_count k)
  / inject_Z (connected_count k + separated_count k).

(** The subset sizes 1 .. N-2. *)
Definition sizes (N : Z) : list Z :=
  map Z.of_nat (seq 1 (Z.to_nat (N - 2))).

Definition Qsum (l : list Q) : Q := fold_right Qplus 0%Q l.

Definition spec_s_metric : Q :=
  let N := get_num_nodes truth in
  Qsum (map spec_s_score (sizes N)) / inject_Z (N - 1).
Definition spec_c_metric : Q :=
  let N := get_num_nodes truth in
  Qsum (map spec_c_score (sizes N)) / inject_Z (N - 1).
Definition spec_sc_metric : Q :=
  let N := get_num_nodes truth in
  Qsum (map spec_sc_score (sizes N)) / inject_Z (N - 1).

(** No per-size denominator is zero. *)
Definition denominators_nonzero : Prop :=
  forall k, In k (sizes (get_num_nodes truth)) ->
            connected_count k <> 0 /\ separated_count k <> 0.

End Spec.

(** The binomial coefficient C(n, k). *)
Fixpoint binom (n k : nat) : nat :=
  match k with
  | O => 1
  | S k' =>
      match n with
      | O => 0
      | S n' => binom n' k' + binom n' k
      end
  end.

(** Modelled from the spec: the contract of [Graph] (not in the sources)
    that the node count equals the number of node names. *)
Definition num_nodes_ok (g : Graph) : Prop :=
  get_num_nodes g = Z.of_nat (List.length (node_names g)).

(** Modelled from the spec: the contract of [Graph] (not in the sources)
    that [is_dconnected_to] takes a conditioning set, that is, that the
    order of its list argument is irrelevant. *)
Definition conditioning_is_set (g : Graph) : Prop :=
  forall x y s s', Permutation s s' ->
                   is_dconnected_to g x y s = is_dconnected_to g x y s'.

(** [visited] holds each [k]-element subset of [names] exactly once: its
    members are distinct [k]-element lists over [names], every [k]-element
    subset occurs in some order, and no two members are the same subset. *)
Definition each_subset_once (names : list string) (k : nat)
           (visited : list (list string)) : Prop :=
  NoDup visited
  /\ (forall s, In s visited -> NoDup s /\ incl s names /\ List.length s = k)
  /\ (forall s', NoDup s' -> incl s' names -> List.length s' = k ->
                 exists s, In s visited /\ Permutation s s')
  /\ (forall s1 s2, In s1 visited -> In s2 visited ->
                    Permutation s1 s2 -> s1 = s2).

(** [visited] holds each ordered pair of distinct names outside [s]
    exactly once. *)
Definition each_pair_once (names s : list string)
           (visited : list (string * string)) : Prop :=
  NoDup visited
  /\ (forall x y, In (x, y) visited
                  <-> In x names /\ In y names
                      /\ ~ In x s /\ ~ In y s /\ x <> y).

(** The sum of [F] over a list. *)
Definition sum_over {A : Type} (F : A -> Z) (l : list A) : Z :=
  fold_right (fun x n => F x + n) 0 l.

(** The graph [g] with another d-connection predicate. *)
Definition with_oracle (g : Graph)
           (p : Node g -> Node g -> list (Node g) -> bool) : Graph :=
  mkGraph (Node g) (get_name g) (node_map g) (get_num_nodes g) (get_node g) p.

(** ** The constructor in closed form

    Definitions used to state what the constructor returns. *)

Definition mismatch : exn :=
  AssertionError "The two graphs have different sets of node names.".

Section Derived.

Variables truth est : Graph.

(** The innermost body as a function of the triple it handles. *)
Definition record_triple (a : acc) (t : triple) : acc :=
  let '(x, y, s) := t in
  classify truth est (map (get_node truth) s) (map (get_node est) s)
           (get_node truth x) (get_node est x) y a.

(** What line 70 adds to [__CM] at size [k]. *)
Definition code_c_score (k : Z) : Q :=
  inject_Z (spurious_count truth est k) / inject_Z (connected_count truth k).

Definition after_sizes (ks : list Z) (self : metrics) : metrics :=
  mkMetrics
    (fold_left (fun q k => q + spec_s_score truth est k)%Q ks (__SM self))
    (fold_left (fun q k => q + code_c_score k)%Q ks (__CM self))
    (fold_left (fun q k => q + spec_sc_score truth est k)%Q ks (__SCM self)).

(** The instance built when nothing is raised. *)
Definition built : metrics :=
  let N := get_num_nodes truth in
  let self := after_sizes (sizes N) (mkMetrics 0 0 0) in
  mkMetrics (__SM self / inject_Z (N - 1))
            (__CM self / inject_Z (N - 1))
            (__SCM self / inject_Z (N - 1)).

Definition some_zero_denominator : Prop :=
  exists k, In k (sizes (get_num_nodes truth))
            /\ (connected_count truth k = 0 \/ separated_count truth k = 0).

End Derived.

(** ** Example graphs

    A graph over string handles whose d-connection relation is given as a
    table on names. *)

Definition graph_of (names : list string)
           (dcon : string -> string -> list string -> bool) : Graph :=
  mkGraph string (fun n => n)
          (combine names (map Z.of_nat (seq 0 (length names))))
          (Z.of_nat (length names))
          (fun n => n)
          dcon.

(** Unordered pair test. *)
Definition pair_is (x y a b : string) : bool :=
  (String.eqb x a && String.eqb y b) || (String.eqb x b && String.eqb y a).

(** The chain A -> B -> C: A and C are d-separated exactly when B is
    conditioned on; adjacent nodes are always d-connected. *)
Definition chain_ABC : Graph :=
  graph_of ["A"; "B"; "C"]%string
    (fun x y S => if pair_is x y "A" "C" then negb (str_in "B" S) else true).

(** The chain A -> C -> B. *)
Definition chain_ACB : Graph :=
  graph_of ["A"; "C"; "B"]%string
    (fun x y S => if pair_is x y "A" "B" then negb (str_in "C" S) else true).

(** The complete DAG A -> B, A -> C, B -> C: every pair is adjacent. *)
Definition complete_ABC : Graph :=
  graph_of ["A"; "B"; "C"]%string (fun _ _ _ => true).

(** Three nodes and no edge: nothing is d-connected. *)
Definition empty_ABC : Graph :=
  graph_of ["A"; "B"; "C"]%string (fun _ _ _ => false).

(** Three nodes A, B, D and no edge. *)
Definition empty_ABD : Graph :=
  graph_of ["A"; "B"; "D"]%string (fun _ _ _ => false).

(** One node. *)
Definition single_A : Graph :=
  graph_of ["A"]%string (fun _ _ _ => false).

(** The edge A -> B on two nodes, and two nodes without an edge. *)
Definition edge_AB : Graph :=
  graph_of ["A"; "B"]%string (fun _ _ _ => true).

Definition empty_AB : Graph :=
  graph_of ["B"; "A"]%string (fun _ _ _ => false).

(** Three nodes, listed as C, B, A, with the single edge A -> B. *)
Definition edge_AB_3 : Graph :=
  graph_of ["C"; "B"; "A"]%string
    (fun x y S => pair_is x y "A" "B").

(** Four nodes with the single edge A -> B. *)
Definition edge_AB_4 : Graph :=
  graph_of ["A"; "B"; "C"; "D"]%string
    (fun x y S => pair_is x y "A" "B").

(** The complete DAG on A, B, C, D. *)
Definition complete_ABCD : Graph :=
  graph_of ["A"; "B"; "C"; "D"]%string (fun _ _ _ => true).


(** ** Further definitions used in statements *)

(** The graph [g] with another [node_map]: other nodes, another order,
    other ids. *)
Definition with_node_map (g : Graph) (m : list (Node g * Z)) : Graph :=
  mkGraph (Node g) (get_name g) m (get_num_nodes g) (get_node g)
          (is_dconnected_to g).

(** The names of the nodes of [node_map], in its order, with repetitions. *)
Definition listed_names (g : Graph) : list string :=
  map (fun e => get_name g (fst e)) (node_map g).

(** The two graphs answer alike on every triple the constructor queries. *)
Definition agree_on_sizes (truth est : Graph) : Prop :=
  forall k, In k (sizes (get_num_nodes truth)) ->
  forall t, In t (triples_of_size truth k) ->
            dconnected truth t = dconnected est t.

(** Three nodes, two of them named A: [get_num_nodes] is 3 and there are
    two node names. *)
Definition dup_AAB : Graph :=
  mkGraph nat
          (fun i => if (i <? 2)%nat then "A"%string else "B"%string)
          [(0%nat, 0); (1%nat, 1); (2%nat, 2)]
          3
          (fun n => if String.eqb n "A" then 0%nat else 2%nat)
          (fun x y _ => negb (Nat.eqb x y)).

(** The graph without nodes. *)
Definition no_nodes : Graph := graph_of [] (fun _ _ _ => false).

(** No triple queried is d-separated in truth and d-connected in est. *)
Definition no_spurious_connection (truth est : Graph) : Prop :=
  forall k, In k (sizes (get_num_nodes truth)) ->
  forall t, In t (triples_of_size truth k) ->
            dconnected truth t = false -> dconnected est t = false.

(** Graph [g'] answers like graph [g] on every triple the constructor
    queries with [truth] as truth: the triples of the sizes 1..N-2 over the
    names of [truth]. *)
Definition same_answers (truth g g' : Graph) : Prop :=
  forall k, In k (sizes (get_num_nodes truth)) ->
  forall t, In t (triples_of_size truth k) -> dconnected g t = dconnected g' t.

(** A graph that answers like [chain_ABC] on every non-empty conditioning
    set and differently on the empty one, which the constructor never
    passes. *)
Definition chain_ABC_nonempty : Graph :=
  graph_of ["A"; "B"; "C"]%string
    (fun x y S =>
       match S with
       | [] => false
       | _ => if pair_is x y "A" "C" then negb (str_in "B" S) else true
       end).

(** [edge_AB_3] over handles that are numbers: C is 0, B is 1, A is 2, and
    any other name resolves to 3. *)
Definition edge_AB_3_nat : Graph :=
  mkGraph nat
          (fun i => match i with
                    | O => "C"%string | S O => "B"%string | _ => "A"%string
                    end)
          [(0%nat, 0); (1%nat, 1); (2%nat, 2)]
          3
          (fun n => if String.eqb n "C" then 0%nat
                    else if String.eqb n "B" then 1%nat
                         else if String.eqb n "A" then 2%nat else 3%nat)
          (fun x y _ =>
             ((Nat.eqb x 2 && Nat.eqb y 1) || (Nat.eqb x 1 && Nat.eqb y 2))%bool).

(** ** Folds *)

Lemma fold_left_flat_map {A B C : Type} (f : A -> C -> A) (g : B -> list C)
      (l : list B) (a : A) :
  fold_left f (flat_map g l) a = fold_left (fun a x => fold_left f (g x) a) l a.
Proof.
  revert a; induction l as [|x l IH]; intros a; simpl; [reflexivity|].
  now rewrite fold_left_app, IH.
Qed.

Lemma fold_left_map {A B C : Type} (f : A -> C -> A) (g : B -> C)
      (l : list B) (a : A) :
  fold_left f (map g l) a = fold_left (fun a x => f a (g x)) l a.
Proof.
  revert a; induction l as [|x l IH]; intros a; simpl; auto.
Qed.

Lemma fold_left_filter {A B : Type} (f : A -> B -> A) (p : B -> bool)
      (l : list B) (a : A) :
  fold_left f (filter p l) a
  = fold_left (fun a x => if p x then f a x else a) l a.
Proof.
  revert a; induction l as [|x l IH]; intros a; simpl; [reflexivity|].
  destruct (p x); simpl; auto.
Qed.

Lemma fold_left_pointwise {A B : Type} (f g : A -> B -> A) (l : list B) (a : A) :
  (forall a x, f a x = g a x) -> fold_left f l a = fold_left g l a.
Proof.
  intros H; revert a; induction l as [|x l IH]; intros a; simpl; auto.
  now rewrite H, IH.
Qed.

Lemma combinations_map {A B : Type} (f : A -> B) (l : list A) (r : nat) :
  combinations (map f l) r = map (map f) (combinations l r).
Proof.
  revert r; induction l as [|x l IH]; intros [|r]; simpl; try reflexivity.
  rewrite map_app, !map_map, !IH, map_map. reflexivity.
Qed.

(** ** The loops visit the triples of the specification *)

Section Fusion.

Variables truth est : Graph.


Lemma y_loop_pairs (s : list string) (x : string)
      (l : list (string * Z)) (a : acc) :
  str_in x s = false ->
  fold_left (y_step truth est s (map (get_node truth) s)
                    (map (get_node est) s) x
                    (get_node truth x) (get_node est x)) l a
  = fold_left (record_triple truth est)
      (map (fun p => (fst p, snd p, s))
           (filter (outside_pair s) (map (pair x) (keys l)))) a.
Proof.
  intros Hx; revert a; induction l as [|[y i] l IH]; intros a; simpl.
  - reflexivity.
  - unfold y_step at 2, outside_pair at 1; simpl.
    rewrite Hx; simpl.
    destruct (str_in y s); simpl; [apply IH|].
    destruct (String.eqb x y); simpl; apply IH.
Qed.

Lemma y_loop_skipped (s : list string) (x : string) (l : list string) :
  str_in x s = true ->
  filter (outside_pair s) (map (pair x) l) = [].
Proof.
  intros Hx; induction l as [|y l IH]; simpl; [reflexivity|].
  unfold outside_pair at 1; simpl. now rewrite Hx.
Qed.

Lemma x_loop_pairs (s : list string) (items l : list (string * Z)) (a : acc) :
  fold_left (x_step truth est items s (map (get_node truth) s)
                    (map (get_node est) s)) l a
  = fold_left (record_triple truth est)
      (map (fun p => (fst p, snd p, s))
           (filter (outside_pair s) (list_prod (keys l) (keys items)))) a.
Proof.
  revert a; induction l as [|[x i] l IH]; intros a; simpl.
  - reflexivity.
  - rewrite filter_app, map_app, fold_left_app, IH.
    f_equal. unfold x_step; simpl.
    destruct (str_in x s) eqn:Hx.
    + now rewrite y_loop_skipped.
    + now apply y_loop_pairs.
Qed.

Lemma S_step_pairs (items : list (string * Z)) (a : acc)
      (S : list (string * Z)) :
  S_step truth est items a S
  = fold_left (record_triple truth est)
      (map (fun p => (fst p, snd p, keys S))
           (spec_pairs (keys items) (keys S))) a.
Proof.
  unfold S_step, spec_pairs.
  rewrite <- !(map_map fst). apply x_loop_pairs.
Qed.

(** The nested loops of lines 42-67 are one pass over the triples. *)
Lemma loop_k_triples (items : list (string * Z)) (k : Z) :
  loop_k truth est items k
  = fold_left (record_triple truth est) (spec_triples (keys items) (Z.to_nat k)) acc0.
Proof.
  unfold loop_k, spec_triples, keys.
  rewrite combinations_map, fold_left_flat_map, fold_left_map.
  apply fold_left_pointwise. intros a S. apply S_step_pairs.
Qed.

End Fusion.

(** ** The accumulators are the counts of the specification *)

Lemma count_nil {A : Type} (p : A -> bool) : count p [] = 0.
Proof. reflexivity. Qed.

Lemma count_cons {A : Type} (p : A -> bool) (x : A) (l : list A) :
  count p (x :: l) = (if p x then 1 else 0) + count p l.
Proof.
  unfold count; simpl. destruct (p x); simpl List.length; lia.
Qed.

Lemma count_app {A : Type} (p : A -> bool) (l1 l2 : list A) :
  count p (l1 ++ l2) = count p l1 + count p l2.
Proof.
  unfold count. rewrite filter_app, length_app. lia.
Qed.

Lemma count_nonneg {A : Type} (p : A -> bool) (l : list A) : 0 <= count p l.
Proof. unfold count; lia. Qed.

Lemma count_le_length {A : Type} (p : A -> bool) (l : list A) :
  count p l <= Z.of_nat (List.length l).
Proof. unfold count. pose proof (filter_length_le p l). lia. Qed.

Lemma count_ext {A : Type} (p q : A -> bool) (l : list A) :
  (forall x, In x l -> p x = q x) -> count p l = count q l.
Proof.
  intros H. unfold count. now rewrite (filter_ext_in p q l H).
Qed.

Lemma count_perm {A : Type} (p : A -> bool) (l l' : list A) :
  Permutation l l' -> count p l = count p l'.
Proof.
  intros H; induction H; rewrite ?count_cons in *; lia.
Qed.

Lemma inject_Z_succ (n : Z) : (inject_Z n + 1)%Q = inject_Z (n + 1).
Proof.
  unfold Qplus, inject_Z; simpl. now rewrite Z.mul_1_r.
Qed.

Lemma inject_Z_same (n : Z) : (inject_Z n + 0)%Q = inject_Z n.
Proof.
  unfold Qplus, inject_Z; simpl. now rewrite Z.mul_1_r, Z.add_0_r.
Qed.

Section Counts.

Variables truth est : Graph.

Lemma record_triples_counts (l : list triple) (s c d con sep : Z) :
  fold_left (record_triple truth est) l
            (mkAcc (inject_Z s) (inject_Z c) (inject_Z d) con sep)
  = mkAcc (inject_Z (s + count (is_spurious truth est) l))
          (inject_Z (c + count (is_missed truth est) l))
          (inject_Z (d + count (is_disagreement truth est) l))
          (con + count (is_connected truth) l)
          (sep + count (is_separated truth) l).
Proof.
  revert s c d con sep; induction l as [|[[x y] z] l IH]; intros.
  - rewrite !count_nil, !Z.add_0_r. reflexivity.
  - rewrite !count_cons. cbn [fold_left].
    unfold record_triple at 2, classify.
    change (is_spurious truth est (x, y, z))
      with (negb (dconnected truth (x, y, z)) && dconnected est (x, y, z)).
    change (is_missed truth est (x, y, z))
      with (dconnected truth (x, y, z) && negb (dconnected est (x, y, z))).
    change (is_disagreement truth est (x, y, z))
      with (negb (Bool.eqb (dconnected truth (x, y, z))
                           (dconnected est (x, y, z)))).
    change (is_connected truth (x, y, z)) with (dconnected truth (x, y, z)).
    change (is_separated truth (x, y, z))
      with (negb (dconnected truth (x, y, z))).
    change (dconnected truth (x, y, z))
      with (is_dconnected_to truth (get_node truth x) (get_node truth y)
                             (map (get_node truth) z)).
    change (dconnected est (x, y, z))
      with (is_dconnected_to est (get_node est x) (get_node est y)
                             (map (get_node est) z)).
    cbn [SM_k CM_k SCM_k n_C_k_con n_C_k_sep].
    destruct (is_dconnected_to truth _ _ _), (is_dconnected_to est _ _ _);
      cbn [negb Bool.eqb andb];
      rewrite ?inject_Z_succ, ?inject_Z_same, IH;
      f_equal; try (f_equal; lia); lia.
Qed.

(** The locals after the inner loops of iteration [k]. *)
Lemma loop_k_counts (k : Z) :
  loop_k truth est (name_map truth) k
  = mkAcc (inject_Z (spurious_count truth est k))
          (inject_Z (missed_count truth est k))
          (inject_Z (disagreement_count truth est k))
          (connected_count truth k)
          (separated_count truth k).
Proof.
  rewrite loop_k_triples.
  change acc0 with (mkAcc (inject_Z 0) (inject_Z 0) (inject_Z 0) 0 0).
  rewrite record_triples_counts. reflexivity.
Qed.

End Counts.

(** ** The loop over the subset sizes *)

Lemma py_div_ok (a : Q) (b : Z) :
  b <> 0 -> py_div a b = inr (a / inject_Z b)%Q.
Proof.
  intros H. unfold py_div. destruct (Z.eqb_spec b 0); [contradiction|reflexivity].
Qed.

Lemma py_div_zero (a : Q) : py_div a 0 = inl ZeroDivisionError.
Proof. reflexivity. Qed.

Lemma range_sizes (N : Z) : range 1 (N - 1) = map Z.of_nat (seq 1 (Z.to_nat (N - 2))).
Proof.
  unfold range. replace (N - 1 - 1) with (N - 2) by lia.
  rewrite <- seq_shift, map_map. apply map_ext. intros i. lia.
Qed.

Lemma In_sizes (N k : Z) : In k (map Z.of_nat (seq 1 (Z.to_nat (N - 2)))) <-> 1 <= k <= N - 2.
Proof.
  rewrite in_map_iff. split.
  - intros [i [<- Hi]]. apply in_seq in Hi. lia.
  - intros H. exists (Z.to_nat k). split; [lia|]. apply in_seq. lia.
Qed.

Lemma Qsum_fold_left (f : Z -> Q) (ks : list Z) (q : Q) :
  (fold_left (fun q k => q + f k) ks q == q + fold_right Qplus 0 (map f ks))%Q.
Proof.
  revert q; induction ks as [|k ks IH]; intros q; simpl.
  - now rewrite Qplus_0_r.
  - rewrite IH. now rewrite Qplus_assoc.
Qed.

Section SizeLoop.

Variables truth est : Graph.

Let con := connected_count truth.
Let sep := separated_count truth.


Lemma k_step_ok (self : metrics) (k : Z) :
  con k <> 0 -> sep k <> 0 ->
  k_step truth est (name_map truth) self k = inr (after_sizes truth est [k] self).
Proof.
  intros Hc Hs. unfold k_step. rewrite loop_k_counts.
  cbn [SM_k CM_k SCM_k n_C_k_con n_C_k_sep].
  assert (Hcs : separated_count truth k + connected_count truth k <> 0).
  { pose proof (count_nonneg (is_connected truth) (triples_of_size truth k)).
    pose proof (count_nonneg (is_separated truth) (triples_of_size truth k)).
    subst con sep. unfold connected_count, separated_count in *. lia. }
  rewrite !py_div_ok by assumption. cbn [bind ret].
  unfold after_sizes, spec_sc_score; simpl.
  now rewrite (Z.add_comm (connected_count truth k)).
Qed.

Lemma k_step_zero (self : metrics) (k : Z) :
  con k = 0 \/ sep k = 0 ->
  k_step truth est (name_map truth) self k = inl ZeroDivisionError.
Proof.
  intros H. unfold k_step. rewrite loop_k_counts.
  cbn [SM_k CM_k SCM_k n_C_k_con n_C_k_sep]. subst con sep.
  unfold py_div at 1.
  destruct (Z.eqb_spec (separated_count truth k) 0) as [_|Hs]; [reflexivity|].
  destruct H as [H|H]; [|contradiction].
  cbn [bind ret]. rewrite H. reflexivity.
Qed.

Lemma k_loop_ok (ks : list Z) (self : metrics) :
  (forall k, In k ks -> con k <> 0 /\ sep k <> 0) ->
  k_loop truth est (name_map truth) ks self = inr (after_sizes truth est ks self).
Proof.
  revert self; induction ks as [|k ks IH]; intros self H.
  - destruct self; reflexivity.
  - cbn [k_loop]. destruct (H k (or_introl eq_refl)) as [Hc Hs].
    rewrite k_step_ok by assumption. cbn [bind].
    rewrite IH by (intros; apply H; now right). reflexivity.
Qed.

Lemma k_loop_zero (ks : list Z) (self : metrics) :
  (exists k, In k ks /\ (con k = 0 \/ sep k = 0)) ->
  k_loop truth est (name_map truth) ks self = inl ZeroDivisionError.
Proof.
  revert self; induction ks as [|k ks IH]; intros self [k0 [Hin H0]].
  - destruct Hin.
  - cbn [k_loop].
    destruct (Z.eq_dec (con k) 0) as [Hc|Hc];
      [rewrite k_step_zero by (now left); reflexivity|].
    destruct (Z.eq_dec (sep k) 0) as [Hs|Hs];
      [rewrite k_step_zero by (now right); reflexivity|].
    rewrite k_step_ok by assumption. cbn [bind].
    apply IH. exists k0. split; [|assumption].
    destruct Hin as [->|Hin]; [|assumption]. destruct H0; contradiction.
Qed.

(** Either every size has non-zero denominators, or some size has not. *)
Lemma denominators_dec (ks : list Z) :
  (forall k, In k ks -> con k <> 0 /\ sep k <> 0)
  \/ (exists k, In k ks /\ (con k = 0 \/ sep k = 0)).
Proof.
  induction ks as [|k ks [IH|[k0 [Hin H0]]]].
  - left. intros k [].
  - destruct (Z.eq_dec (con k) 0) as [Hc|Hc];
      [right; exists k; split; [now left|now left]|].
    destruct (Z.eq_dec (sep k) 0) as [Hs|Hs];
      [right; exists k; split; [now left|now right]|].
    left. intros k' [<-|Hin]; auto.
  - right. exists k0. split; [now right|assumption].
Qed.

End SizeLoop.

(** ** Set comparison of the node names *)

Lemma str_in_In (x : string) (l : list string) : str_in x l = true <-> In x l.
Proof.
  unfold str_in. rewrite existsb_exists. split.
  - intros [y [Hy Heq]]. apply String.eqb_eq in Heq. now subst.
  - intros H. exists x. split; [assumption|apply String.eqb_refl].
Qed.

Lemma str_in_not_In (x : string) (l : list string) :
  str_in x l = false <-> ~ In x l.
Proof.
  rewrite <- str_in_In. destruct (str_in x l); split; congruence.
Qed.

Lemma set_eq_spec (l1 l2 : list string) :
  set_eq l1 l2 = true <-> (forall x, In x l1 <-> In x l2).
Proof.
  unfold set_eq. rewrite andb_true_iff, !forallb_forall. split.
  - intros [H1 H2] x. split; intros H.
    + apply str_in_In, H1, H.
    + apply str_in_In, H2, H.
  - intros H. split; intros x Hx; apply str_in_In, H, Hx.
Qed.

Lemma set_eq_refl (l : list string) : set_eq l l = true.
Proof. apply set_eq_spec. tauto. Qed.

Lemma set_eq_sym (l1 l2 : list string) : set_eq l1 l2 = set_eq l2 l1.
Proof. unfold set_eq. apply andb_comm. Qed.

(** ** The outcome of the constructor *)


Section Outcome.

Variables truth est : Graph.

Let N := get_num_nodes truth.


Lemma SCM_mismatch :
  set_eq (node_names truth) (node_names est) = false ->
  SCM truth est = inl mismatch.
Proof.
  intros H. unfold SCM. fold (node_names truth) (node_names est).
  now rewrite H.
Qed.

Lemma SCM_built :
  set_eq (node_names truth) (node_names est) = true ->
  N <> 1 ->
  denominators_nonzero truth ->
  SCM truth est = inr (built truth est).
Proof.
  intros Hset HN Hden. unfold SCM.
  fold (node_names truth) (node_names est). rewrite Hset. cbn [negb].
  fold N. rewrite range_sizes. fold (sizes N).
  rewrite k_loop_ok by exact Hden. cbn [bind].
  rewrite !py_div_ok by lia. reflexivity.
Qed.

Lemma SCM_zero_division :
  set_eq (node_names truth) (node_names est) = true ->
  N = 1 \/ some_zero_denominator truth ->
  SCM truth est = inl ZeroDivisionError.
Proof.
  intros Hset H. unfold SCM.
  fold (node_names truth) (node_names est). rewrite Hset. cbn [negb].
  fold N. rewrite range_sizes. fold (sizes N).
  destruct (denominators_dec truth (sizes N)) as [Hden|Hz].
  - destruct H as [H1|Hz].
    + rewrite k_loop_ok by exact Hden. cbn [bind].
      rewrite H1. reflexivity.
    + destruct Hz as [k [Hin Hk]]. destruct (Hden k Hin). tauto.
  - now rewrite k_loop_zero.
Qed.

(** The three possible outcomes. *)
Lemma SCM_cases :
  (set_eq (node_names truth) (node_names est) = false
   /\ SCM truth est = inl mismatch)
  \/ (set_eq (node_names truth) (node_names est) = true
      /\ (N = 1 \/ some_zero_denominator truth)
      /\ SCM truth est = inl ZeroDivisionError)
  \/ (set_eq (node_names truth) (node_names est) = true
      /\ N <> 1 /\ denominators_nonzero truth
      /\ SCM truth est = inr (built truth est)).
Proof.
  destruct (set_eq (node_names truth) (node_names est)) eqn:Hset.
  - right. destruct (Z.eq_dec N 1) as [H1|H1].
    + left. repeat split; auto. apply SCM_zero_division; auto.
    + destruct (denominators_dec truth (sizes N)) as [Hden|Hz].
      * right. split; [reflexivity|]. split; [exact H1|].
        split; [exact Hden|]. now apply SCM_built.
      * left. repeat split; auto. apply SCM_zero_division; auto.
  - left. split; auto. now apply SCM_mismatch.
Qed.

Lemma SCM_inr_inv (self : metrics) :
  SCM truth est = inr self ->
  set_eq (node_names truth) (node_names est) = true
  /\ N <> 1 /\ denominators_nonzero truth /\ self = (built truth est).
Proof.
  intros H.
  destruct SCM_cases as [[_ E]|[[_ [_ E]]|[Hs [H1 [Hd E]]]]];
    rewrite E in H; try discriminate.
  injection H as <-. auto.
Qed.

Lemma built_s_metric :
  (get_s_metric (built truth est) == spec_s_metric truth est)%Q.
Proof.
  unfold built, get_s_metric, spec_s_metric, after_sizes; cbn [__SM].
  fold N. rewrite Qsum_fold_left, Qplus_0_l. reflexivity.
Qed.

Lemma built_sc_metric :
  (get_sc_metric (built truth est) == spec_sc_metric truth est)%Q.
Proof.
  unfold built, get_sc_metric, spec_sc_metric, after_sizes; cbn [__SCM].
  fold N. rewrite Qsum_fold_left, Qplus_0_l. reflexivity.
Qed.

(** What [get_c_metric] returns: the spurious-connection counts over the
    connected-triple counts. *)
Lemma built_c_metric :
  (get_c_metric (built truth est)
   == Qsum (map (code_c_score truth est) (sizes N)) / inject_Z (N - 1))%Q.
Proof.
  unfold built, get_c_metric, after_sizes; cbn [__CM].
  rewrite Qsum_fold_left, Qplus_0_l. reflexivity.
Qed.

End Outcome.

(** ** Sums of rationals *)

Lemma Qsum_zero (f : Z -> Q) (ks : list Z) :
  (forall k, In k ks -> (f k == 0)%Q) -> (Qsum (map f ks) == 0)%Q.
Proof.
  induction ks as [|k ks IH]; intros H; simpl.
  - reflexivity.
  - rewrite (H k (or_introl eq_refl)), IH by (intros; apply H; now right).
    reflexivity.
Qed.

(** ** The s-metric *)

(** C2, as the constructor behaves: for graphs with the same node names,
    N >= 3, and a non-zero connected-triple count and a non-zero
    separated-triple count at every size k = 1..N-2, the constructor returns
    an instance, and [get_s_metric] returns on it the sum over the sizes
    k = 1..N-2 of (spurious-connection count / separated-triple count),
    divided by N-1. *)
Theorem s_metric_is_spec (truth est : Graph) :
  set_eq (node_names truth) (node_names est) = true ->
  3 <= get_num_nodes truth ->
  denominators_nonzero truth ->
  exists self, SCM truth est = inr self
               /\ (get_s_metric self == spec_s_metric truth est)%Q.
Proof.
  intros Hset HN Hden. exists (built truth est). split.
  - apply SCM_built; [assumption|lia|assumption].
  - apply built_s_metric.
Qed.

Lemma s_metric_is_spec_witness :
  exists self, SCM chain_ABC complete_ABC = inr self
               /\ (get_s_metric self
                   == spec_s_metric chain_ABC complete_ABC)%Q.
Proof.
  apply s_metric_is_spec.
  - reflexivity.
  - vm_compute. discriminate.
  - intros k Hk. vm_compute in Hk. destruct Hk as [<-|[]].
    vm_compute. split; discriminate.
Defined.

(** C2, as stated, fails: with the graph on A, B, C without edges as truth
    and the complete graph as estimate, the names are the same, N = 3, the
    separated-triple count of size 1 is 6 and the claimed s-metric is
    (6/6)/2 = 1/2; but the connected-triple count is 0, the division of
    line 70 raises ZeroDivisionError and [get_s_metric] has no instance to
    return a value from. *)
Lemma s_metric_not_returned :
  set_eq (node_names empty_ABC) (node_names complete_ABC) = true
  /\ 3 <= get_num_nodes empty_ABC
  /\ sizes (get_num_nodes empty_ABC) = [1]
  /\ spurious_count empty_ABC complete_ABC 1 = 6
  /\ separated_count empty_ABC 1 = 6
  /\ (spec_s_metric empty_ABC complete_ABC == 1 # 2)%Q
  /\ connected_count empty_ABC 1 = 0
  /\ SCM empty_ABC complete_ABC = inl ZeroDivisionError
  /\ ~ (exists self, SCM empty_ABC complete_ABC = inr self).
Proof.
  split; [reflexivity|]. split; [vm_compute; discriminate|].
  do 6 (split; [reflexivity|]).
  intros [self H]. vm_compute in H. discriminate H.
Qed.

(** ** The c-metric *)

(** C1: on the chain A -> B -> C as truth and the complete graph on A, B, C
    as estimate no connection of the truth is missed, so the c-metric of the
    specification is 0; [get_c_metric] returns 1/4, the spurious-connection
    count 2 over the connected-triple count 4, divided by N-1 = 2. *)
Theorem c_metric_divides_spurious_count :
  missed_count chain_ABC complete_ABC 1 = 0
  /\ spurious_count chain_ABC complete_ABC 1 = 2
  /\ connected_count chain_ABC 1 = 4
  /\ (spec_c_metric chain_ABC complete_ABC == 0)%Q
  /\ exists self, SCM chain_ABC complete_ABC = inr self
                  /\ (get_c_metric self == 1 # 4)%Q.
Proof.
  repeat split; try (vm_compute; reflexivity).
  eexists. split; vm_compute; reflexivity.
Qed.

(** ** Exceptions of the constructor *)

(** C6: when some name is a node name of one graph and not of the other,
    the constructor raises the assertion error; it does so whatever the
    d-connection predicates of the two graphs answer, and it returns no
    instance. *)
Theorem different_names_raise (truth est : Graph) (x : string) :
  (In x (node_names truth) /\ ~ In x (node_names est))
  \/ (In x (node_names est) /\ ~ In x (node_names truth)) ->
  SCM truth est = inl mismatch
  /\ (forall p q, SCM (with_oracle truth p) (with_oracle est q) = inl mismatch)
  /\ (forall self, SCM truth est <> inr self).
Proof.
  intros H.
  assert (Hset : set_eq (node_names truth) (node_names est) = false).
  { destruct (set_eq (node_names truth) (node_names est)) eqn:E; [|reflexivity].
    rewrite set_eq_spec in E. specialize (E x). tauto. }
  split; [|split].
  - now apply SCM_mismatch.
  - intros p q. apply SCM_mismatch. exact Hset.
  - intros self. rewrite SCM_mismatch by assumption. discriminate.
Qed.

Lemma different_names_raise_witness :
  SCM empty_ABC empty_ABD = inl mismatch
  /\ (forall p q,
         SCM (with_oracle empty_ABC p) (with_oracle empty_ABD q) = inl mismatch)
  /\ (forall self, SCM empty_ABC empty_ABD <> inr self).
Proof.
  apply (different_names_raise empty_ABC empty_ABD "D"%string).
  right. split.
  - vm_compute. tauto.
  - vm_compute. intros [H|[H|[H|[]]]]; discriminate H.
Defined.

(** C10: with the same node names and exactly one node the loop over the
    sizes is empty and finalization divides by N-1 = 0: the constructor
    raises ZeroDivisionError and returns no instance. *)
Theorem single_node_raises (truth est : Graph) :
  set_eq (node_names truth) (node_names est) = true ->
  get_num_nodes truth = 1 ->
  range 1 (get_num_nodes truth - 1) = []
  /\ SCM truth est = inl ZeroDivisionError
  /\ (forall self, SCM truth est <> inr self).
Proof.
  intros Hset HN.
  assert (E : SCM truth est = inl ZeroDivisionError)
    by (apply SCM_zero_division; auto).
  split; [now rewrite HN|]. split; [exact E|].
  intros self. rewrite E. discriminate.
Qed.

Lemma single_node_raises_witness :
  range 1 (get_num_nodes single_A - 1) = []
  /\ SCM single_A single_A = inl ZeroDivisionError
  /\ (forall self, SCM single_A single_A <> inr self).
Proof.
  apply single_node_raises; reflexivity.
Defined.

(** C8: with the same node names and exactly two nodes the loop over the
    sizes runs zero times and the constructor returns an instance whose
    three metrics are 0. *)
Theorem two_nodes_all_zero (truth est : Graph) :
  set_eq (node_names truth) (node_names est) = true ->
  get_num_nodes truth = 2 ->
  range 1 (get_num_nodes truth - 1) = []
  /\ exists self, SCM truth est = inr self
                  /\ (get_s_metric self == 0)%Q
                  /\ (get_c_metric self == 0)%Q
                  /\ (get_sc_metric self == 0)%Q.
Proof.
  intros Hset HN. split; [now rewrite HN|].
  exists (built truth est). split.
  - apply SCM_built; [assumption|lia|].
    intros k Hk. rewrite HN in Hk. destruct Hk.
  - unfold built. rewrite HN. repeat split; reflexivity.
Qed.

Lemma two_nodes_all_zero_witness :
  range 1 (get_num_nodes edge_AB - 1) = []
  /\ exists self, SCM edge_AB empty_AB = inr self
                  /\ (get_s_metric self == 0)%Q
                  /\ (get_c_metric self == 0)%Q
                  /\ (get_sc_metric self == 0)%Q.
Proof.
  apply two_nodes_all_zero; reflexivity.
Defined.

(** With the same node names: when ZeroDivisionError is raised and when an
    instance is returned. *)
Lemma SCM_raises_iff (truth est : Graph) :
  set_eq (node_names truth) (node_names est) = true ->
  (SCM truth est = inl ZeroDivisionError
   <-> get_num_nodes truth = 1 \/ some_zero_denominator truth)
  /\ ((exists self, SCM truth est = inr self)
      <-> get_num_nodes truth <> 1 /\ denominators_nonzero truth).
Proof.
  intros Hset.
  destruct (SCM_cases truth est)
    as [[E _]|[(_ & Hz & E)|(_ & H1 & Hden & E)]].
  - congruence.
  - rewrite E. split; split; try tauto.
    + intros [self H]. discriminate H.
    + intros [H1 Hden]. exfalso. destruct Hz as [Hz|(k & Hin & Hk)]; [tauto|].
      destruct (Hden k Hin). tauto.
  - rewrite E. split; split; try tauto; try discriminate.
    + intros [Hz|(k & Hin & Hk)]; [tauto|].
      exfalso. destruct (Hden k Hin). tauto.
    + intros _. now exists (built truth est).
Qed.

(** C7, as stated, fails: the complete graph on A, B, C has no separated
    triple of size 1, and with it as truth the constructor applies no policy
    to the zero denominator but raises ZeroDivisionError, so that there is
    no instance to query. *)
Lemma zero_denominator_unhandled :
  set_eq (node_names complete_ABC) (node_names chain_ABC) = true
  /\ separated_count complete_ABC 1 = 0
  /\ SCM complete_ABC chain_ABC = inl ZeroDivisionError
  /\ ~ (exists self, SCM complete_ABC chain_ABC = inr self).
Proof.
  split; [reflexivity|]. split; [reflexivity|]. split; [reflexivity|].
  intros [self H]. vm_compute in H. discriminate H.
Qed.

(** ** A graph compared with itself *)

Lemma count_never {A : Type} (p : A -> bool) (l : list A) :
  (forall x, p x = false) -> count p l = 0.
Proof.
  intros H. induction l as [|x l IH]; [reflexivity|].
  rewrite count_cons, H, IH. reflexivity.
Qed.

Lemma spurious_count_self (g : Graph) (k : Z) : spurious_count g g k = 0.
Proof.
  apply count_never. intros t. unfold is_spurious.
  now destruct (dconnected g t).
Qed.

Lemma disagreement_count_self (g : Graph) (k : Z) : disagreement_count g g k = 0.
Proof.
  apply count_never. intros t. unfold is_disagreement.
  now destruct (dconnected g t).
Qed.

Lemma zero_over (b : Z) : (inject_Z 0 / inject_Z b == 0)%Q.
Proof. unfold Qdiv. apply Qmult_0_l. Qed.

(** C4, as the constructor behaves: for a graph with N >= 3 nodes in which
    every size k in 1..N-2 has a non-zero connected-triple count and a
    non-zero separated-triple count, the constructor called with that graph
    as truth and as estimate returns an instance whose three metrics
    are 0. *)
Theorem same_graph_all_zero (g : Graph) :
  3 <= get_num_nodes g ->
  denominators_nonzero g ->
  exists self, SCM g g = inr self
               /\ (get_s_metric self == 0)%Q
               /\ (get_c_metric self == 0)%Q
               /\ (get_sc_metric self == 0)%Q.
Proof.
  intros HN Hden. exists (built g g). split.
  - apply SCM_built; [apply set_eq_refl|lia|assumption].
  - assert (HQ : forall q : Q, (0 / q == 0)%Q)
      by (intros q; unfold Qdiv; apply Qmult_0_l).
    split; [|split].
    + rewrite built_s_metric. unfold spec_s_metric.
      rewrite Qsum_zero; [apply HQ|].
      intros k _. unfold spec_s_score. rewrite spurious_count_self.
      apply zero_over.
    + rewrite built_c_metric.
      rewrite Qsum_zero; [apply HQ|].
      intros k _. unfold code_c_score. rewrite spurious_count_self.
      apply zero_over.
    + rewrite built_sc_metric. unfold spec_sc_metric.
      rewrite Qsum_zero; [apply HQ|].
      intros k _. unfold spec_sc_score. rewrite disagreement_count_self.
      apply zero_over.
Qed.

Lemma same_graph_all_zero_witness :
  exists self, SCM chain_ABC chain_ABC = inr self
               /\ (get_s_metric self == 0)%Q
               /\ (get_c_metric self == 0)%Q
               /\ (get_sc_metric self == 0)%Q.
Proof.
  apply same_graph_all_zero.
  - vm_compute. discriminate.
  - intros k Hk. vm_compute in Hk. destruct Hk as [<-|[]].
    vm_compute. split; discriminate.
Defined.

(** C4, as stated, fails: the graph on A, B, C without edges has N = 3
    nodes and no connected triple, and the constructor called with it as
    truth and as estimate raises ZeroDivisionError instead of returning
    metrics equal to 0. *)
Lemma same_graph_may_raise :
  3 <= get_num_nodes empty_ABC
  /\ connected_count empty_ABC 1 = 0
  /\ SCM empty_ABC empty_ABC = inl ZeroDivisionError
  /\ ~ (exists self, SCM empty_ABC empty_ABC = inr self).
Proof.
  split; [vm_compute; discriminate|].
  split; [reflexivity|]. split; [reflexivity|].
  intros [self H]. vm_compute in H. discriminate H.
Qed.

(** ** Range of the metrics *)

(** C5: on the graph with the single edge A -> B over A, B, C, D as truth
    and the complete graph as estimate, every per-size denominator is
    non-zero and [get_c_metric] returns 10/3, which is above 1. *)
Theorem c_metric_above_one :
  set_eq (node_names edge_AB_4) (node_names complete_ABCD) = true
  /\ denominators_nonzero edge_AB_4
  /\ exists self, SCM edge_AB_4 complete_ABCD = inr self
                  /\ (get_s_metric self == 2 # 3)%Q
                  /\ (get_c_metric self == 10 # 3)%Q
                  /\ (get_sc_metric self == 5 # 9)%Q
                  /\ ~ (get_c_metric self <= 1)%Q.
Proof.
  split; [reflexivity|]. split.
  - intros k Hk. vm_compute in Hk.
    destruct Hk as [<-|[<-|[]]]; vm_compute; split; discriminate.
  - eexists. split; [vm_compute; reflexivity|].
    repeat split; try (vm_compute; reflexivity).
    vm_compute. intros H. apply H. reflexivity.
Qed.

(** ** The node names are distinct *)

Lemma keys_dict_set {V : Type} (k : string) (v : V) (d : list (string * V)) :
  keys (dict_set k v d) = if str_in k (keys d) then keys d else keys d ++ [k].
Proof.
  induction d as [|[k' v'] d IH]; simpl; [reflexivity|].
  rewrite (String.eqb_sym k k').
  destruct (String.eqb k' k) eqn:E; simpl; [reflexivity|].
  unfold keys in *. rewrite IH. now destruct (str_in k (map fst d)).
Qed.

Lemma NoDup_keys_dict_set {V : Type} (k : string) (v : V) (d : list (string * V)) :
  NoDup (keys d) -> NoDup (keys (dict_set k v d)).
Proof.
  intros H. rewrite keys_dict_set.
  destruct (str_in k (keys d)) eqn:E; [assumption|].
  apply str_in_not_In in E.
  apply NoDup_app; [assumption|repeat constructor; intros []|].
  intros a Ha [<-|[]]. contradiction.
Qed.

Lemma NoDup_node_names (g : Graph) : NoDup (node_names g).
Proof.
  unfold node_names, name_map.
  assert (H : forall (l : list (Node g * Z)) (d : list (string * Z)),
             NoDup (keys d) ->
             NoDup (keys (fold_left
                            (fun d e => dict_set (get_name g (fst e)) (snd e) d)
                            l d))).
  { induction l as [|e l IH]; intros d Hd; simpl; [assumption|].
    apply IH. now apply NoDup_keys_dict_set. }
  apply H. constructor.
Qed.

Lemma node_names_perm (truth est : Graph) :
  set_eq (node_names truth) (node_names est) = true ->
  Permutation (node_names truth) (node_names est).
Proof.
  intros H. apply NoDup_Permutation; try apply NoDup_node_names.
  now apply set_eq_spec.
Qed.

(** ** Enumeration of the subsets *)

Lemma length_combinations {A : Type} (l : list A) (k : nat) :
  List.length (combinations l k) = binom (List.length l) k.
Proof.
  revert k; induction l as [|x l IH]; intros [|k]; simpl; try reflexivity.
  now rewrite length_app, length_map, !IH.
Qed.

Lemma combinations_shape {A : Type} (l : list A) (k : nat) (s : list A) :
  In s (combinations l k) -> incl s l /\ List.length s = k.
Proof.
  revert k s; induction l as [|x l IH]; intros [|k] s; simpl.
  - intros [<-|[]]. split; [apply incl_nil_l|reflexivity].
  - intros [].
  - intros [<-|[]]. split; [apply incl_nil_l|reflexivity].
  - rewrite in_app_iff, in_map_iff. intros [[t [<- Ht]]|Hs].
    + apply IH in Ht as [Hi Hl]. split; [|simpl; congruence].
      intros a [<-|Ha]; [now left|right; now apply Hi].
    + apply IH in Hs as [Hi Hl]. split; [|assumption].
      intros a Ha. right. now apply Hi.
Qed.

Lemma combinations_NoDup_elt {A : Type} (l : list A) (k : nat) (s : list A) :
  NoDup l -> In s (combinations l k) -> NoDup s.
Proof.
  revert k s; induction l as [|x l IH]; intros [|k] s Hl; simpl.
  - intros [<-|[]]. constructor.
  - intros [].
  - intros [<-|[]]. constructor.
  - apply NoDup_cons_iff in Hl as [Hx Hl].
    rewrite in_app_iff, in_map_iff. intros [[t [<- Ht]]|Hs].
    + constructor; [|now apply (IH k)].
      intros Hin. apply Hx. apply combinations_shape in Ht as [Hi _].
      now apply Hi.
    + now apply (IH (S k)).
Qed.

Lemma NoDup_combinations {A : Type} (l : list A) (k : nat) :
  NoDup l -> NoDup (combinations l k).
Proof.
  revert k; induction l as [|x l IH]; intros [|k] Hl; simpl;
    try (repeat constructor; intros []).
  apply NoDup_cons_iff in Hl as [Hx Hl].
  apply NoDup_app.
  - apply Finite.Injective_map_NoDup; [|now apply IH].
    intros a b H. now injection H.
  - now apply IH.
  - intros s Hs Hs'. apply in_map_iff in Hs as [t [<- Ht]].
    apply combinations_shape in Hs' as [Hi _].
    apply Hx, Hi. now left.
Qed.

(** Every [k]-element subset of [l] is enumerated. *)
Lemma combinations_complete (l : list string) (k : nat) (s' : list string) :
  NoDup s' -> incl s' l -> List.length s' = k ->
  exists s, In s (combinations l k) /\ Permutation s s'.
Proof.
  revert k s'; induction l as [|x l IH]; intros k s' Hnd Hincl Hlen.
  - destruct s' as [|a s']; [|destruct (Hincl a (or_introl eq_refl))].
    subst k. exists []. split; [now left|constructor].
  - destruct k as [|k].
    + destruct s'; [|discriminate]. exists []. split; [now left|constructor].
    + destruct (in_dec string_dec x s') as [Hx|Hx].
      * apply in_split in Hx as (s1 & s2 & ->).
        assert (Hp : Permutation (x :: s1 ++ s2) (s1 ++ x :: s2))
          by apply Permutation_middle.
        assert (Hnd' : NoDup (x :: s1 ++ s2))
          by (eapply Permutation_NoDup; [symmetry; exact Hp|exact Hnd]).
        apply NoDup_cons_iff in Hnd' as [Hx Hnd'].
        destruct (IH k (s1 ++ s2)) as (s & Hs & Hps).
        { exact Hnd'. }
        { intros a Ha. assert (Ha' : In a (s1 ++ x :: s2)).
          { apply in_app_iff in Ha as [Ha|Ha]; apply in_app_iff;
              [now left|right; now right]. }
          destruct (Hincl a Ha') as [<-|H]; [contradiction|exact H]. }
        { rewrite length_app in *. simpl in Hlen. lia. }
        exists (x :: s). split.
        -- simpl. apply in_app_iff. left. now apply in_map.
        -- rewrite <- Hp. now constructor.
      * destruct (IH (S k) s') as (s & Hs & Hps); try assumption.
        { intros a Ha. destruct (Hincl a Ha) as [<-|H];
            [contradiction|exact H]. }
        exists s. split; [|assumption].
        simpl. apply in_app_iff. now right.
Qed.

(** No subset is enumerated twice, not even in another order. *)
Lemma combinations_unique (l : list string) (k : nat) (s1 s2 : list string) :
  NoDup l ->
  In s1 (combinations l k) -> In s2 (combinations l k) ->
  Permutation s1 s2 -> s1 = s2.
Proof.
  revert k s1 s2; induction l as [|x l IH]; intros [|k] s1 s2 Hl; simpl.
  - intros [<-|[]] [<-|[]] _. reflexivity.
  - intros [].
  - intros [<-|[]] [<-|[]] _. reflexivity.
  - apply NoDup_cons_iff in Hl as [Hx Hl].
    rewrite !in_app_iff, !in_map_iff.
    intros [[t1 [<- H1]]|H1] [[t2 [<- H2]]|H2] Hp.
    + f_equal. apply (IH k); auto. now apply Permutation_cons_inv in Hp.
    + exfalso. apply Hx. apply combinations_shape in H2 as [Hi _].
      apply Hi. apply (Permutation_in _ Hp). now left.
    + exfalso. apply Hx. apply combinations_shape in H1 as [Hi _].
      apply Hi. apply (Permutation_in _ (Permutation_sym Hp)). now left.
    + now apply (IH (S k)).
Qed.

(** ** Enumeration of the ordered pairs *)

Lemma NoDup_list_prod {A B : Type} (l : list A) (l' : list B) :
  NoDup l -> NoDup l' -> NoDup (list_prod l l').
Proof.
  intros Hl Hl'. induction Hl as [|x l Hx Hl IH]; simpl; [constructor|].
  apply NoDup_app.
  - apply Finite.Injective_map_NoDup; [|assumption].
    intros a b H. now injection H.
  - exact IH.
  - intros [a b] Hab Hab'. apply in_map_iff in Hab as [b' [[= <- <-] _]].
    apply in_prod_iff in Hab' as [Ha _]. contradiction.
Qed.

Lemma outside_pair_spec (s : list string) (x y : string) :
  outside_pair s (x, y) = true <-> ~ In x s /\ ~ In y s /\ x <> y.
Proof.
  unfold outside_pair; simpl.
  rewrite !andb_true_iff, !negb_true_iff, !str_in_not_In, String.eqb_neq.
  tauto.
Qed.

Lemma spec_pairs_In (names s : list string) (x y : string) :
  In (x, y) (spec_pairs names s)
  <-> In x names /\ In y names /\ ~ In x s /\ ~ In y s /\ x <> y.
Proof.
  unfold spec_pairs. rewrite filter_In, in_prod_iff, outside_pair_spec. tauto.
Qed.

Lemma NoDup_spec_pairs (names s : list string) :
  NoDup names -> NoDup (spec_pairs names s).
Proof.
  intros H. apply NoDup_filter. now apply NoDup_list_prod.
Qed.

Lemma filter_map_length {A B : Type} (p : B -> bool) (f : A -> B) (l : list A) :
  List.length (filter p (map f l)) = List.length (filter (fun x => p (f x)) l).
Proof.
  induction l as [|x l IH]; simpl; [reflexivity|].
  destruct (p (f x)); simpl; now rewrite IH.
Qed.

Lemma filter_both {A : Type} (p q : A -> bool) (l : list A) :
  filter (fun x => p x && q x) l = filter q (filter p l).
Proof.
  induction l as [|x l IH]; simpl; [reflexivity|].
  destruct (p x); simpl; [destruct (q x)|]; now rewrite IH.
Qed.

Lemma filter_neq_absent (a : string) (m : list string) :
  ~ In a m -> filter (fun y => negb (String.eqb a y)) m = m.
Proof.
  induction m as [|y m IH]; simpl; [reflexivity|].
  intros H. destruct (String.eqb_spec a y) as [->|_]; simpl.
  - exfalso. apply H. now left.
  - rewrite IH; [reflexivity|]. intros Hin. apply H. now right.
Qed.

Lemma filter_neq_length (a : string) (m : list string) :
  NoDup m -> In a m ->
  S (List.length (filter (fun y => negb (String.eqb a y)) m)) = List.length m.
Proof.
  induction 1 as [|y m Hy Hm IH]; simpl; [intros []|].
  intros [->|Ha].
  - rewrite String.eqb_refl; simpl. now rewrite filter_neq_absent.
  - destruct (String.eqb_spec a y) as [->|_]; [contradiction|].
    simpl. now rewrite IH.
Qed.

Lemma filter_notin_length (l s : list string) :
  NoDup l -> NoDup s -> incl s l ->
  (List.length (filter (fun x => negb (str_in x s)) l) + List.length s
   = List.length l)%nat.
Proof.
  intros Hl Hs; revert Hl. induction Hs as [|a s Ha Hs IH]; intros Hl Hincl.
  - simpl. rewrite Nat.add_0_r. clear.
    induction l as [|x l IH]; simpl; [reflexivity|now rewrite IH].
  - assert (Hincl' : incl s l) by (intros b Hb; apply Hincl; now right).
    specialize (IH Hl Hincl').
    rewrite (filter_ext _ (fun x => negb (str_in x s) && negb (String.eqb a x))).
    + rewrite filter_both.
      pose proof (filter_neq_length a (filter (fun x => negb (str_in x s)) l))
        as HS.
      simpl. rewrite <- IH, <- HS; [lia|now apply NoDup_filter|].
      apply filter_In. split; [apply Hincl; now left|].
      apply negb_true_iff, str_in_not_In. exact Ha.
    + intros x. unfold str_in; simpl. rewrite (String.eqb_sym x a).
      destruct (String.eqb a x), (existsb (String.eqb x) s); reflexivity.
Qed.

Lemma length_pairs_from (names s l1 : list string) :
  NoDup names -> incl l1 names ->
  List.length (filter (outside_pair s) (list_prod l1 names))
  = (List.length (filter (fun x => negb (str_in x s)) l1)
     * (List.length (filter (fun x => negb (str_in x s)) names) - 1))%nat.
Proof.
  intros Hn. induction l1 as [|x l1 IH]; intros Hincl; simpl; [reflexivity|].
  rewrite filter_app, length_app, IH
    by (intros b Hb; apply Hincl; now right).
  destruct (str_in x s) eqn:Hx; simpl.
  - now rewrite y_loop_skipped.
  - f_equal. rewrite filter_map_length.
    rewrite (filter_ext _ (fun y => negb (str_in y s) && negb (String.eqb x y))).
    + rewrite filter_both.
      pose proof (filter_neq_length
                    x (filter (fun y => negb (str_in y s)) names)) as HS.
      rewrite <- HS; [lia|now apply NoDup_filter|].
      apply filter_In. split; [apply Hincl; now left|].
      now rewrite Hx.
    + intros y. unfold outside_pair; simpl. now rewrite Hx.
Qed.

Lemma length_spec_pairs (names s : list string) :
  NoDup names -> NoDup s -> incl s names ->
  List.length (spec_pairs names s)
  = ((List.length names - List.length s)
     * (List.length names - List.length s - 1))%nat.
Proof.
  intros Hn Hs Hincl. unfold spec_pairs.
  rewrite length_pairs_from by (assumption || apply incl_refl).
  pose proof (filter_notin_length names s Hn Hs Hincl). 
  replace (List.length names - List.length s)%nat
    with (List.length (filter (fun x => negb (str_in x s)) names)) by lia.
  reflexivity.
Qed.

(** ** Number of triples of one size *)

Lemma length_flat_map_const {A B : Type} (f : A -> list B) (l : list A) (c : nat) :
  (forall x, In x l -> List.length (f x) = c) ->
  List.length (flat_map f l) = (List.length l * c)%nat.
Proof.
  induction l as [|x l IH]; intros H; simpl; [reflexivity|].
  rewrite length_app, H, IH; [reflexivity| |now left].
  intros y Hy. apply H. now right.
Qed.

Lemma length_spec_triples (names : list string) (k : nat) :
  NoDup names ->
  List.length (spec_triples names k)
  = (binom (List.length names) k
     * ((List.length names - k) * (List.length names - k - 1)))%nat.
Proof.
  intros Hn. unfold spec_triples.
  rewrite (length_flat_map_const _ _
             ((List.length names - k) * (List.length names - k - 1))).
  - now rewrite length_combinations.
  - intros s Hs. rewrite length_map.
    pose proof (combinations_NoDup_elt _ _ _ Hn Hs) as Hnd.
    apply combinations_shape in Hs as [Hi <-].
    now apply length_spec_pairs.
Qed.

Lemma count_partition (g : Graph) (l : list triple) :
  count (is_connected g) l + count (is_separated g) l
  = Z.of_nat (List.length l).
Proof.
  induction l as [|t l IH]; [reflexivity|].
  rewrite !count_cons. unfold is_connected at 1, is_separated at 1.
  simpl List.length. destruct (dconnected g t); simpl negb; lia.
Qed.

Lemma triples_total (g : Graph) (k : Z) :
  connected_count g k + separated_count g k
  = Z.of_nat (List.length (spec_triples (node_names g) (Z.to_nat k))).
Proof. apply count_partition. Qed.

Lemma subsets_once (names : list string) (k : nat) :
  NoDup names -> each_subset_once names k (combinations names k).
Proof.
  intros Hn. split; [now apply NoDup_combinations|]. split; [|split].
  - intros s Hs. split; [now apply (combinations_NoDup_elt names k)|].
    now apply combinations_shape.
  - intros s'. apply combinations_complete.
  - intros s1 s2. now apply combinations_unique.
Qed.

Lemma pairs_once (names s : list string) :
  NoDup names -> each_pair_once names s (spec_pairs names s).
Proof.
  intros Hn. split; [now apply NoDup_spec_pairs|].
  intros x y. apply spec_pairs_In.
Qed.

(** C9: for graphs with the same node names whose node count N >= 3 is the
    number of names, and a size k in 1..N-2: the loops of iteration k handle,
    in order, the triples (X, Y, S) where S runs over the enumerated
    k-subsets and (X, Y) over the pairs kept for S; each k-subset of the
    names is enumerated exactly once, and for each of them each ordered pair
    of distinct names outside it exactly once; the connected-triple count
    plus the separated-triple count is C(N, k) * (N-k) * (N-k-1). *)
Theorem triples_visited_once (truth est : Graph) (k : Z) :
  set_eq (node_names truth) (node_names est) = true ->
  num_nodes_ok truth ->
  3 <= get_num_nodes truth ->
  1 <= k <= get_num_nodes truth - 2 ->
  let N := get_num_nodes truth in
  let names := node_names truth in
  let a := loop_k truth est (name_map truth) k in
  a = fold_left (record_triple truth est)
                (flat_map (fun s => map (fun p => (fst p, snd p, s))
                                        (spec_pairs names s))
                          (combinations names (Z.to_nat k)))
                acc0
  /\ each_subset_once names (Z.to_nat k) (combinations names (Z.to_nat k))
  /\ (forall s, In s (combinations names (Z.to_nat k)) ->
                each_pair_once names s (spec_pairs names s))
  /\ n_C_k_con a + n_C_k_sep a
     = Z.of_nat (binom (Z.to_nat N) (Z.to_nat k)) * (N - k) * (N - k - 1).
Proof.
  intros _ HN H3 Hk. cbv zeta.
  pose proof (NoDup_node_names truth) as Hn.
  split; [apply loop_k_triples|].
  split; [now apply subsets_once|].
  split; [intros s _; now apply pairs_once|].
  rewrite loop_k_counts. cbn [n_C_k_con n_C_k_sep].
  rewrite triples_total, length_spec_triples by exact Hn.
  unfold num_nodes_ok in HN. rewrite HN in *. rewrite Nat2Z.id.
  rewrite !Nat2Z.inj_mul, !Nat2Z.inj_sub by lia.
  change (Z.of_nat 1) with 1. rewrite !Z2Nat.id by lia. ring.
Qed.

Lemma triples_visited_once_witness :
  let N := get_num_nodes edge_AB_4 in
  let names := node_names edge_AB_4 in
  let a := loop_k edge_AB_4 complete_ABCD (name_map edge_AB_4) 2 in
  a = fold_left (record_triple edge_AB_4 complete_ABCD)
                (flat_map (fun s => map (fun p => (fst p, snd p, s))
                                        (spec_pairs names s))
                          (combinations names (Z.to_nat 2)))
                acc0
  /\ each_subset_once names (Z.to_nat 2) (combinations names (Z.to_nat 2))
  /\ (forall s, In s (combinations names (Z.to_nat 2)) ->
                each_pair_once names s (spec_pairs names s))
  /\ n_C_k_con a + n_C_k_sep a
     = Z.of_nat (binom (Z.to_nat N) (Z.to_nat 2)) * (N - 2) * (N - 2 - 1).
Proof.
  apply (triples_visited_once edge_AB_4 complete_ABCD 2).
  - reflexivity.
  - reflexivity.
  - vm_compute. discriminate.
  - split; vm_compute; discriminate.
Defined.

(** ** Independence of the iteration order *)

Lemma sum_over_app {A : Type} (F : A -> Z) (l1 l2 : list A) :
  sum_over F (l1 ++ l2) = sum_over F l1 + sum_over F l2.
Proof.
  induction l1 as [|x l1 IH]; simpl; [reflexivity|]. rewrite IH. lia.
Qed.

Lemma sum_over_map {A B : Type} (F : B -> Z) (g : A -> B) (l : list A) :
  sum_over F (map g l) = sum_over (fun x => F (g x)) l.
Proof.
  induction l as [|x l IH]; simpl; [reflexivity|]. now rewrite IH.
Qed.

Lemma sum_over_ext {A : Type} (F G : A -> Z) (l : list A) :
  (forall x, F x = G x) -> sum_over F l = sum_over G l.
Proof.
  intros H. induction l as [|x l IH]; simpl; [reflexivity|].
  now rewrite H, IH.
Qed.

Lemma count_flat_map {A B : Type} (p : B -> bool) (f : A -> list B) (l : list A) :
  count p (flat_map f l) = sum_over (fun x => count p (f x)) l.
Proof.
  induction l as [|x l IH]; simpl; [reflexivity|].
  now rewrite count_app, IH.
Qed.

Lemma count_map {A B : Type} (p : B -> bool) (f : A -> B) (l : list A) :
  count p (map f l) = count (fun x => p (f x)) l.
Proof.
  unfold count. now rewrite filter_map_length.
Qed.

Lemma combinations_0 {A : Type} (l : list A) : combinations l 0 = [[]].
Proof. now destruct l. Qed.

(** The sum of an order-insensitive quantity over the [k]-subsets does not
    depend on the order of the base list. *)
Lemma sum_over_combinations_perm {A : Type} (l l' : list A) :
  Permutation l l' ->
  forall (k : nat) (F : list A -> Z),
    (forall s s', Permutation s s' -> F s = F s') ->
    sum_over F (combinations l k) = sum_over F (combinations l' k).
Proof.
  induction 1 as [|x l l' Hp IH|x y l|l l' l'' _ IH1 _ IH2]; intros k F HF.
  - reflexivity.
  - destruct k as [|k]; [reflexivity|]. simpl.
    rewrite !sum_over_app, !sum_over_map.
    rewrite (IH k (fun s => F (x :: s))), (IH (S k) F); auto.
  - destruct k as [|[|k]]; [reflexivity| |].
    + simpl. rewrite !sum_over_app, !combinations_0. simpl. lia.
    + simpl.
      repeat (progress rewrite ?map_app, ?sum_over_app, ?sum_over_map).
      rewrite (sum_over_ext (fun s => F (y :: x :: s))
                            (fun s => F (x :: y :: s)))
        by (intros s; apply HF; constructor).
      lia.
  - rewrite (IH1 k F HF). now apply IH2.
Qed.

Lemma list_prod_perm_l {A B : Type} (l l' : list A) (m : list B) :
  Permutation l l' -> Permutation (list_prod l m) (list_prod l' m).
Proof.
  induction 1 as [|x l l' Hp IH|x y l|l l' l'' _ IH1 _ IH2]; simpl.
  - constructor.
  - now apply Permutation_app_head.
  - rewrite !app_assoc. apply Permutation_app_tail, Permutation_app_comm.
  - now transitivity (list_prod l' m).
Qed.

Lemma list_prod_perm_r {A B : Type} (l : list A) (m m' : list B) :
  Permutation m m' -> Permutation (list_prod l m) (list_prod l m').
Proof.
  intros Hp. induction l as [|x l IH]; simpl; [constructor|].
  apply Permutation_app; [now apply Permutation_map|exact IH].
Qed.

Lemma filter_perm {A : Type} (p : A -> bool) (l l' : list A) :
  Permutation l l' -> Permutation (filter p l) (filter p l').
Proof.
  induction 1 as [|x l l' Hp IH|x y l|l l' l'' _ IH1 _ IH2]; simpl.
  - constructor.
  - destruct (p x); [now constructor|exact IH].
  - destruct (p x), (p y); try reflexivity. constructor.
  - now transitivity (filter p l').
Qed.

Lemma spec_pairs_perm (l l' s : list string) :
  Permutation l l' -> Permutation (spec_pairs l s) (spec_pairs l' s).
Proof.
  intros Hp. apply filter_perm.
  transitivity (list_prod l' l);
    [now apply list_prod_perm_l|now apply list_prod_perm_r].
Qed.

Lemma str_in_perm (x : string) (s s' : list string) :
  Permutation s s' -> str_in x s = str_in x s'.
Proof.
  intros Hp. destruct (str_in x s') eqn:E.
  - apply str_in_In. apply str_in_In in E.
    now apply (Permutation_in _ (Permutation_sym Hp)).
  - apply str_in_not_In. apply str_in_not_In in E.
    intros H. apply E. now apply (Permutation_in _ Hp).
Qed.

Lemma spec_pairs_subset_perm (l s s' : list string) :
  Permutation s s' -> spec_pairs l s = spec_pairs l s'.
Proof.
  intros Hp. apply filter_ext. intros [x y]. unfold outside_pair; simpl.
  now rewrite (str_in_perm x s s' Hp), (str_in_perm y s s' Hp).
Qed.

(** A count over the triples of one size does not depend on the order in
    which the names are iterated, if the counted property does not depend
    on the order inside the conditioning set. *)
Lemma count_triples_perm (p : triple -> bool) (l l' : list string) (k : nat) :
  Permutation l l' ->
  (forall x y s s', Permutation s s' -> p (x, y, s) = p (x, y, s')) ->
  count p (spec_triples l k) = count p (spec_triples l' k).
Proof.
  intros Hp Hinv. unfold spec_triples. rewrite !count_flat_map.
  rewrite (sum_over_ext _
             (fun s => count p (map (fun q => (fst q, snd q, s))
                                    (spec_pairs l' s)))).
  - apply sum_over_combinations_perm; [exact Hp|].
    intros s s' Hs. rewrite (spec_pairs_subset_perm l' s s' Hs).
    rewrite !count_map. apply count_ext. intros q _. now apply Hinv.
  - intros s. apply count_perm, Permutation_map. now apply spec_pairs_perm.
Qed.

Lemma dconnected_perm (g : Graph) (x y : string) (s s' : list string) :
  conditioning_is_set g -> Permutation s s' ->
  dconnected g (x, y, s) = dconnected g (x, y, s').
Proof.
  intros Hg Hp. unfold dconnected. apply Hg. now apply Permutation_map.
Qed.

Lemma count_all {A : Type} (l : list A) :
  count (fun _ => true) l = Z.of_nat (List.length l).
Proof.
  unfold count. f_equal. f_equal.
  induction l as [|x l IH]; simpl; [reflexivity|now rewrite IH].
Qed.

Section Swap.

Variables truth est : Graph.

Hypothesis same_names : set_eq (node_names truth) (node_names est) = true.
Hypothesis truth_set : conditioning_is_set truth.
Hypothesis est_set : conditioning_is_set est.

Lemma disagreement_count_swap (k : Z) :
  disagreement_count truth est k = disagreement_count est truth k.
Proof.
  unfold disagreement_count, triples_of_size.
  rewrite (count_ext (is_disagreement truth est) (is_disagreement est truth)).
  - apply count_triples_perm; [now apply node_names_perm|].
    intros x y s s' Hp. unfold is_disagreement.
    now rewrite (dconnected_perm truth x y s s'),
      (dconnected_perm est x y s s').
  - intros t _. unfold is_disagreement.
    now destruct (dconnected truth t), (dconnected est t).
Qed.

Lemma triples_total_swap (k : Z) :
  connected_count truth k + separated_count truth k
  = connected_count est k + separated_count est k.
Proof.
  rewrite !triples_total, <- !count_all.
  apply count_triples_perm; [now apply node_names_perm|reflexivity].
Qed.

Lemma spec_sc_score_swap (k : Z) :
  spec_sc_score truth est k = spec_sc_score est truth k.
Proof.
  unfold spec_sc_score.
  now rewrite disagreement_count_swap, triples_total_swap.
Qed.

End Swap.

Lemma num_nodes_same (truth est : Graph) :
  set_eq (node_names truth) (node_names est) = true ->
  num_nodes_ok truth -> num_nodes_ok est ->
  get_num_nodes truth = get_num_nodes est.
Proof.
  intros Hset Ht He. unfold num_nodes_ok in *. rewrite Ht, He.
  f_equal. apply Permutation_length. now apply node_names_perm.
Qed.

(** C3: for graphs with the same node names (each with as many nodes as
    names, and a d-connection predicate that reads its conditioning argument
    as a set), if the constructor returns an instance for (truth, est) and
    one for (est, truth), the two instances have the same sc-metric. *)
Theorem sc_metric_symmetric (truth est : Graph) (self self' : metrics) :
  set_eq (node_names truth) (node_names est) = true ->
  num_nodes_ok truth -> num_nodes_ok est ->
  conditioning_is_set truth -> conditioning_is_set est ->
  SCM truth est = inr self ->
  SCM est truth = inr self' ->
  get_sc_metric self = get_sc_metric self'.
Proof.
  intros Hset Ht He Hct Hce H H'.
  apply SCM_inr_inv in H as (_ & _ & _ & ->).
  apply SCM_inr_inv in H' as (_ & _ & _ & ->).
  unfold get_sc_metric, built, after_sizes; cbn [__SCM].
  rewrite <- (num_nodes_same truth est Hset Ht He).
  f_equal. apply fold_left_pointwise. intros q k. f_equal.
  now apply spec_sc_score_swap.
Qed.

Lemma chain_ABC_set : conditioning_is_set chain_ABC.
Proof.
  intros x y s s' Hp. simpl.
  now rewrite (str_in_perm "B" s s' Hp).
Qed.

Lemma edge_AB_3_set : conditioning_is_set edge_AB_3.
Proof. intros x y s s' _. reflexivity. Qed.

Lemma sc_metric_symmetric_witness :
  SCM chain_ABC edge_AB_3 = inr (built chain_ABC edge_AB_3)
  /\ SCM edge_AB_3 chain_ABC = inr (built edge_AB_3 chain_ABC)
  /\ get_sc_metric (built chain_ABC edge_AB_3)
     = get_sc_metric (built edge_AB_3 chain_ABC).
Proof.
  split; [vm_compute; reflexivity|]. split; [vm_compute; reflexivity|].
  apply (sc_metric_symmetric chain_ABC edge_AB_3).
  - reflexivity.
  - reflexivity.
  - reflexivity.
  - exact chain_ABC_set.
  - exact edge_AB_3_set.
  - vm_compute. reflexivity.
  - vm_compute. reflexivity.
Defined.

(** The s-metric is not symmetric: on the same two graphs it is 0 in one
    order and 1/4 in the other. *)
Example s_metric_not_symmetric :
  (get_s_metric (built chain_ABC edge_AB_3) == 0)%Q
  /\ (get_s_metric (built edge_AB_3 chain_ABC) == 1 # 4)%Q
  /\ (get_sc_metric (built chain_ABC edge_AB_3) == 1 # 6)%Q.
Proof. repeat split. Qed.

(** ** Bounds of the s-metric and the sc-metric *)

Lemma count_le_of_imp {A : Type} (p q : A -> bool) (l : list A) :
  (forall x, p x = true -> q x = true) -> count p l <= count q l.
Proof.
  intros H. induction l as [|x l IH]; [reflexivity|].
  rewrite !count_cons. specialize (H x).
  destruct (p x), (q x); try lia; discriminate (H eq_refl).
Qed.

Lemma ratio_in_unit (a b : Z) :
  0 <= a <= b -> b <> 0 ->
  (0 <= inject_Z a / inject_Z b <= 1)%Q.
Proof.
  intros Ha Hb.
  assert (Hpos : (0 < inject_Z b)%Q)
    by (change 0%Q with (inject_Z 0); rewrite <- Zlt_Qlt; lia).
  split.
  - apply Qle_shift_div_l; [exact Hpos|].
    rewrite Qmult_0_l. change 0%Q with (inject_Z 0). rewrite <- Zle_Qle. lia.
  - apply Qle_shift_div_r; [exact Hpos|].
    rewrite Qmult_1_l. rewrite <- Zle_Qle. lia.
Qed.

Lemma Qsum_bounds (f : Z -> Q) (ks : list Z) :
  (forall k, In k ks -> (0 <= f k <= 1)%Q) ->
  (0 <= Qsum (map f ks) <= inject_Z (Z.of_nat (List.length ks)))%Q.
Proof.
  induction ks as [|k ks IH]; intros H.
  - simpl. split; apply Qle_refl.
  - destruct (H k (or_introl eq_refl)) as [H0 H1].
    destruct IH as [I0 I1]; [intros; apply H; now right|].
    cbn [map Qsum fold_right List.length]. fold (Qsum (map f ks)). split.
    + change 0%Q with (0 + 0)%Q. now apply Qplus_le_compat.
    + replace (Z.of_nat (S (List.length ks)))
        with (1 + Z.of_nat (List.length ks)) by lia.
      rewrite inject_Z_plus. now apply Qplus_le_compat.
Qed.

Lemma average_in_unit (f : Z -> Q) (N : Z) :
  N <> 1 ->
  (forall k, In k (sizes N) -> (0 <= f k <= 1)%Q) ->
  (0 <= Qsum (map f (sizes N)) / inject_Z (N - 1) <= 1)%Q.
Proof.
  intros HN H. pose proof (Qsum_bounds f (sizes N) H) as [H0 H1].
  destruct (Z_lt_le_dec N 2) as [Hlt|Hge].
  - unfold sizes in *. replace (Z.to_nat (N - 2)) with O in * by lia.
    simpl. unfold Qdiv. rewrite Qmult_0_l. split; [apply Qle_refl|discriminate].
  - assert (Hpos : (0 < inject_Z (N - 1))%Q)
      by (change 0%Q with (inject_Z 0); rewrite <- Zlt_Qlt; lia).
    split.
    + apply Qle_shift_div_l; [exact Hpos|]. now rewrite Qmult_0_l.
    + apply Qle_shift_div_r; [exact Hpos|]. rewrite Qmult_1_l.
      eapply Qle_trans; [exact H1|]. rewrite <- Zle_Qle.
      unfold sizes. rewrite length_map, length_seq. lia.
Qed.

(** Whenever the constructor returns an instance, its s-metric and its
    sc-metric lie in [0, 1]. *)
Lemma s_and_sc_metric_in_unit (truth est : Graph) (self : metrics) :
  SCM truth est = inr self ->
  (0 <= get_s_metric self <= 1)%Q /\ (0 <= get_sc_metric self <= 1)%Q.
Proof.
  intros H. apply SCM_inr_inv in H as (_ & HN & Hden & ->).
  rewrite built_s_metric, built_sc_metric.
  unfold spec_s_metric, spec_sc_metric.
  split; apply average_in_unit; try exact HN; intros k Hk;
    destruct (Hden k Hk) as [Hc Hs].
  - apply ratio_in_unit; [|exact Hs]. split; [apply count_nonneg|].
    apply count_le_of_imp. intros t. unfold is_spurious, is_separated.
    now destruct (dconnected truth t).
  - pose proof (count_nonneg (is_connected truth) (triples_of_size truth k)).
    pose proof (count_nonneg (is_separated truth) (triples_of_size truth k)).
    apply ratio_in_unit.
    + split; [apply count_nonneg|].
      unfold connected_count, separated_count.
      rewrite count_partition. apply count_le_length.
    + unfold connected_count, separated_count in *. lia.
Qed.

(** ** The binomial coefficient *)

Lemma binom_above (n k : nat) : (n < k)%nat -> binom n k = O.
Proof.
  revert k; induction n as [|n IH]; intros [|k] H; simpl; try lia.
  rewrite !IH by lia. reflexivity.
Qed.

Lemma binom_fact (n k : nat) :
  (k <= n)%nat -> (binom n k * (fact k * fact (n - k)) = fact n)%nat.
Proof.
  revert k; induction n as [|n IH]; intros [|k] H.
  - reflexivity.
  - lia.
  - simpl binom. rewrite Nat.sub_0_r. change (fact 0) with 1%nat.
    now rewrite !Nat.mul_1_l.
  - cbn [binom]. destruct (Nat.eq_dec k n) as [->|Hne].
    + rewrite (binom_above n (S n)) by lia.
      pose proof (IH n (le_n n)) as E. rewrite Nat.sub_diag in *.
      replace (S n - S n)%nat with O by lia. cbn [fact] in *. nia.
    + pose proof (IH k ltac:(lia)) as E1.
      pose proof (IH (S k) ltac:(lia)) as E2.
      replace (S n - S k)%nat with (n - k)%nat by lia.
      replace (n - k)%nat with (S (n - S k)) in * by lia.
      cbn [fact] in *. 
      set (a := binom n k) in *. set (b := binom n (S k)) in *.
      set (fk := fact k) in *. set (fr := fact (n - S k)) in *.
      replace (fact n + n * fact n)%nat with (S n * fact n)%nat by lia.
      rewrite <- E1 at 1.
      assert (E3 : (b * (S k * fk * fr) * S (n - S k)
                    = a * (fk * (S (n - S k) * fr)) * S (n - S k))%nat).
      { replace (fk + k * fk)%nat with (S k * fk)%nat in E2 by lia.
        rewrite E2. rewrite <- E1. replace (fr + (n - S k) * fr)%nat
          with (S (n - S k) * fr)%nat by lia. lia. }
      nia.
Qed.

(** ** The node-name map *)

Lemma In_keys_dict_set {V : Type} (k : string) (v : V) (d : list (string * V))
      (x : string) :
  In x (keys (dict_set k v d)) <-> x = k \/ In x (keys d).
Proof.
  rewrite keys_dict_set. destruct (str_in k (keys d)) eqn:E.
  - apply str_in_In in E. split; [tauto|]. intros [->|H]; assumption.
  - rewrite in_app_iff. simpl. split; intros H; intuition congruence.
Qed.

Lemma In_keys_fold (g : Graph) (l : list (Node g * Z)) (d : list (string * Z))
      (x : string) :
  In x (keys (fold_left
                (fun d e => dict_set (get_name g (fst e)) (snd e) d) l d))
  <-> In x (keys d) \/ exists e, In e l /\ get_name g (fst e) = x.
Proof.
  revert d; induction l as [|e l IH]; intros d; simpl.
  - split; [tauto|]. intros [H|[e [[] _]]]. exact H.
  - rewrite IH, In_keys_dict_set. split.
    + intros [[->|H]|[e' [He' Hn]]].
      * right. exists e. split; [now left|reflexivity].
      * now left.
      * right. exists e'. split; [now right|exact Hn].
    + intros [H|[e' [[<-|He'] Hn]]].
      * left. now right.
      * left. left. now symmetry.
      * right. exists e'. split; assumption.
Qed.

(** X5: the keys of the name map built at lines 24-25 are pairwise distinct
    and are exactly the names of the nodes of [node_map]. *)
Theorem node_names_distinct_and_exact (g : Graph) :
  NoDup (node_names g)
  /\ (forall x, In x (node_names g)
                <-> exists node id, In (node, id) (node_map g)
                                    /\ get_name g node = x).
Proof.
  split; [apply NoDup_node_names|].
  intros x. unfold node_names, name_map. rewrite In_keys_fold. simpl. split.
  - intros [[]|[[node id] [He Hn]]]. now exists node, id.
  - intros (node & id & He & Hn). right. now exists (node, id).
Qed.

Lemma keys_fold_distinct (g : Graph) (l : list (Node g * Z))
      (d : list (string * Z)) :
  NoDup (keys d ++ map (fun e => get_name g (fst e)) l) ->
  keys (fold_left (fun d e => dict_set (get_name g (fst e)) (snd e) d) l d)
  = keys d ++ map (fun e => get_name g (fst e)) l.
Proof.
  revert d; induction l as [|e l IH]; intros d H; simpl.
  - now rewrite app_nil_r.
  - assert (Hk : keys (dict_set (get_name g (fst e)) (snd e) d)
                 = keys d ++ [get_name g (fst e)]).
    { rewrite keys_dict_set.
      destruct (str_in (get_name g (fst e)) (keys d)) eqn:E; [|reflexivity].
      exfalso. apply str_in_In in E. simpl in H.
      apply NoDup_remove_2 in H. apply H. apply in_app_iff. now left. }
    rewrite IH; rewrite Hk, <- app_assoc; [reflexivity|exact H].
Qed.

(** X6: when the nodes of [node_map] have pairwise distinct names, the
    constructor iterates the names in the order of [node_map]. *)
Theorem node_names_keep_order (g : Graph) :
  NoDup (listed_names g) -> node_names g = listed_names g.
Proof.
  intros H. unfold node_names, name_map, listed_names.
  now rewrite keys_fold_distinct.
Qed.

Lemma node_names_keep_order_witness :
  node_names edge_AB_3 = listed_names edge_AB_3.
Proof.
  apply node_names_keep_order.
  repeat constructor; simpl; intuition discriminate.
Defined.

(** ** Invariants of the accumulators *)

Lemma count_disagreement_split (truth est : Graph) (l : list triple) :
  count (is_disagreement truth est) l
  = count (is_spurious truth est) l + count (is_missed truth est) l.
Proof.
  induction l as [|t l IH]; [reflexivity|].
  rewrite !count_cons.
  unfold is_disagreement at 1, is_spurious at 1, is_missed at 1.
  rewrite IH.
  destruct (dconnected truth t), (dconnected est t);
    cbn [negb Bool.eqb andb]; lia.
Qed.

(** X4: whatever the list iterated and the size [k], after the loops over
    [S], [x_name] and [y_name] the disagreement total is the sum of the
    two one-sided totals, [SM_k] lies between 0 and [n_C_k_sep], and [CM_k]
    lies between 0 and [n_C_k_con]. *)
Theorem accumulators_invariant (truth est : Graph)
        (items : list (string * Z)) (k : Z) :
  let a := loop_k truth est items k in
  (SCM_k a == SM_k a + CM_k a)%Q
  /\ (0 <= SM_k a <= inject_Z (n_C_k_sep a))%Q
  /\ (0 <= CM_k a <= inject_Z (n_C_k_con a))%Q.
Proof.
  cbv zeta. rewrite loop_k_triples.
  change acc0 with (mkAcc (inject_Z 0) (inject_Z 0) (inject_Z 0) 0 0).
  rewrite record_triples_counts. cbn [SM_k CM_k SCM_k n_C_k_con n_C_k_sep].
  set (l := spec_triples (keys items) (Z.to_nat k)).
  rewrite !Z.add_0_l.
  split; [|split].
  - rewrite count_disagreement_split, inject_Z_plus. reflexivity.
  - split.
    + change 0%Q with (inject_Z 0). rewrite <- Zle_Qle. apply count_nonneg.
    + rewrite <- Zle_Qle. apply count_le_of_imp.
      intros t. unfold is_spurious, is_separated.
      now destruct (dconnected truth t).
  - split.
    + change 0%Q with (inject_Z 0). rewrite <- Zle_Qle. apply count_nonneg.
    + rewrite <- Zle_Qle. apply count_le_of_imp.
      intros t. unfold is_missed, is_connected.
      now destruct (dconnected truth t).
Qed.

(** ** Values of the accessors *)

Lemma sizes_length (N : Z) :
  Z.of_nat (List.length (sizes N)) = Z.max 0 (N - 2).
Proof. unfold sizes. rewrite length_map, length_seq. lia. Qed.

Lemma average_below_one (f : Z -> Q) (N : Z) :
  N <> 1 ->
  (forall k, In k (sizes N) -> (0 <= f k <= 1)%Q) ->
  (Qsum (map f (sizes N)) / inject_Z (N - 1) < 1)%Q.
Proof.
  intros HN H. pose proof (Qsum_bounds f (sizes N) H) as [H0 H1].
  rewrite sizes_length in H1.
  destruct (Z_lt_le_dec N 2) as [Hlt|Hge].
  - unfold sizes. replace (Z.to_nat (N - 2)) with O by lia.
    simpl. unfold Qdiv. rewrite Qmult_0_l. reflexivity.
  - apply Qlt_shift_div_r.
    + change 0%Q with (inject_Z 0). rewrite <- Zlt_Qlt. lia.
    + rewrite Qmult_1_l. eapply Qle_lt_trans; [exact H1|].
      rewrite <- Zlt_Qlt. lia.
Qed.

(** X1: on every instance the constructor returns, the s-metric and the
    sc-metric are at least 0 and strictly below 1: at most N-2 per-size
    scores, each at most 1, are summed and the sum is divided by N-1. *)
Theorem s_and_sc_metric_below_one (truth est : Graph) (self : metrics) :
  SCM truth est = inr self ->
  (0 <= get_s_metric self)%Q /\ (get_s_metric self < 1)%Q
  /\ (0 <= get_sc_metric self)%Q /\ (get_sc_metric self < 1)%Q.
Proof.
  intros H. destruct (s_and_sc_metric_in_unit truth est self H) as [[Hs _] [Hsc _]].
  apply SCM_inr_inv in H as (_ & HN & Hden & ->).
  split; [exact Hs|]. split; [|split; [exact Hsc|]].
  - rewrite built_s_metric. unfold spec_s_metric.
    apply average_below_one; [exact HN|]. intros k Hk.
    destruct (Hden k Hk) as [Hc Hsep].
    apply ratio_in_unit; [|exact Hsep]. split; [apply count_nonneg|].
    apply count_le_of_imp. intros t. unfold is_spurious, is_separated.
    now destruct (dconnected truth t).
  - rewrite built_sc_metric. unfold spec_sc_metric.
    apply average_below_one; [exact HN|]. intros k Hk.
    destruct (Hden k Hk) as [Hc Hsep].
    pose proof (count_nonneg (is_connected truth) (triples_of_size truth k)).
    pose proof (count_nonneg (is_separated truth) (triples_of_size truth k)).
    apply ratio_in_unit.
    + split; [apply count_nonneg|].
      unfold connected_count, separated_count.
      rewrite count_partition. apply count_le_length.
    + unfold connected_count, separated_count in *. lia.
Qed.

Lemma s_and_sc_metric_below_one_witness :
  (0 <= get_s_metric (built edge_AB_4 complete_ABCD))%Q
  /\ (get_s_metric (built edge_AB_4 complete_ABCD) < 1)%Q
  /\ (0 <= get_sc_metric (built edge_AB_4 complete_ABCD))%Q
  /\ (get_sc_metric (built edge_AB_4 complete_ABCD) < 1)%Q.
Proof.
  apply (s_and_sc_metric_below_one edge_AB_4 complete_ABCD).
  vm_compute. reflexivity.
Defined.

Lemma Qsum_nonneg (f : Z -> Q) (ks : list Z) :
  (forall k, In k ks -> (0 <= f k)%Q) -> (0 <= Qsum (map f ks))%Q.
Proof.
  induction ks as [|k ks IH]; intros H; simpl; [apply Qle_refl|].
  change 0%Q with (0 + 0)%Q. apply Qplus_le_compat.
  - apply H. now left.
  - apply IH. intros; apply H; now right.
Qed.

(** X2: on every instance the constructor returns, [get_c_metric] is the
    sum over the sizes k = 1..N-2 of (spurious-connection count /
    connected-triple count), divided by N-1, and it is not negative. *)
Theorem c_metric_as_computed (truth est : Graph) (self : metrics) :
  SCM truth est = inr self ->
  (get_c_metric self
   == Qsum (map (fun k => inject_Z (spurious_count truth est k)
                          / inject_Z (connected_count truth k))
                (sizes (get_num_nodes truth)))
      / inject_Z (get_num_nodes truth - 1))%Q
  /\ (0 <= get_c_metric self)%Q.
Proof.
  intros H. apply SCM_inr_inv in H as (_ & HN & Hden & ->).
  split; [apply built_c_metric|]. rewrite built_c_metric.
  assert (Hsum : (0 <= Qsum (map (code_c_score truth est)
                                 (sizes (get_num_nodes truth))))%Q).
  { apply Qsum_nonneg. intros k Hk. destruct (Hden k Hk) as [Hc _].
    pose proof (count_nonneg (is_connected truth) (triples_of_size truth k)).
    pose proof (count_nonneg (is_spurious truth est) (triples_of_size truth k)).
    unfold code_c_score. apply Qle_shift_div_l.
    - change 0%Q with (inject_Z 0). rewrite <- Zlt_Qlt.
      unfold connected_count in *. lia.
    - rewrite Qmult_0_l. change 0%Q with (inject_Z 0). now rewrite <- Zle_Qle. }
  destruct (Z_lt_le_dec (get_num_nodes truth) 2) as [Hlt|Hge].
  - unfold sizes. replace (Z.to_nat (get_num_nodes truth - 2)) with O by lia.
    simpl. unfold Qdiv. rewrite Qmult_0_l. apply Qle_refl.
  - apply Qle_shift_div_l; [|now rewrite Qmult_0_l].
    change 0%Q with (inject_Z 0). rewrite <- Zlt_Qlt. lia.
Qed.

Lemma c_metric_as_computed_witness :
  (get_c_metric (built edge_AB_4 complete_ABCD)
   == Qsum (map (fun k => inject_Z (spurious_count edge_AB_4 complete_ABCD k)
                          / inject_Z (connected_count edge_AB_4 k))
                (sizes (get_num_nodes edge_AB_4)))
      / inject_Z (get_num_nodes edge_AB_4 - 1))%Q
  /\ (0 <= get_c_metric (built edge_AB_4 complete_ABCD))%Q.
Proof.
  apply (c_metric_as_computed edge_AB_4 complete_ABCD).
  vm_compute. reflexivity.
Defined.

(** X3: on every instance the constructor returns, [get_sc_metric] is the
    sum over the sizes k = 1..N-2 of (disagreement count / number of
    triples of size k), divided by N-1. *)
Theorem sc_metric_is_spec (truth est : Graph) (self : metrics) :
  SCM truth est = inr self ->
  (get_sc_metric self
   == Qsum (map (fun k =>
                   inject_Z (disagreement_count truth est k)
                   / inject_Z (Z.of_nat (List.length (triples_of_size truth k))))
                (sizes (get_num_nodes truth)))
      / inject_Z (get_num_nodes truth - 1))%Q.
Proof.
  intros H. apply SCM_inr_inv in H as (_ & _ & _ & ->).
  rewrite built_sc_metric. unfold spec_sc_metric, spec_sc_score.
  rewrite (map_ext _ (fun k =>
                   inject_Z (disagreement_count truth est k)
                   / inject_Z (Z.of_nat (List.length (triples_of_size truth k)))))%Q.
  - reflexivity.
  - intros k. unfold connected_count, separated_count.
    now rewrite count_partition.
Qed.

Lemma sc_metric_is_spec_witness :
  (get_sc_metric (built chain_ABC edge_AB_3)
   == Qsum (map (fun k =>
                   inject_Z (disagreement_count chain_ABC edge_AB_3 k)
                   / inject_Z (Z.of_nat
                                 (List.length (triples_of_size chain_ABC k))))
                (sizes (get_num_nodes chain_ABC)))
      / inject_Z (get_num_nodes chain_ABC - 1))%Q.
Proof.
  apply (sc_metric_is_spec chain_ABC edge_AB_3).
  vm_compute. reflexivity.
Defined.

(** ** Node count and number of names *)

Lemma no_triples_when_large (names : list string) (k : nat) :
  NoDup names -> (List.length names <= S k)%nat ->
  spec_triples names k = [].
Proof.
  intros Hn Hk. apply length_zero_iff_nil.
  rewrite length_spec_triples by exact Hn.
  assert (E : ((List.length names - k) * (List.length names - k - 1) = 0)%nat)
    by nia.
  rewrite E. lia.
Qed.

(** X7: with the same node names, if [get_num_nodes] is at least 3 and
    exceeds the number of node names (two nodes share a name), there is no
    triple of size N-2 and the constructor raises ZeroDivisionError. *)
Theorem more_nodes_than_names_raises (truth est : Graph) :
  set_eq (node_names truth) (node_names est) = true ->
  3 <= get_num_nodes truth ->
  Z.of_nat (List.length (node_names truth)) < get_num_nodes truth ->
  SCM truth est = inl ZeroDivisionError.
Proof.
  intros Hset H3 Hlt. apply SCM_zero_division; [exact Hset|]. right.
  exists (get_num_nodes truth - 2). split.
  - apply In_sizes. lia.
  - left. unfold connected_count, triples_of_size.
    rewrite no_triples_when_large; [reflexivity|apply NoDup_node_names|lia].
Qed.

Lemma more_nodes_than_names_raises_witness :
  SCM dup_AAB dup_AAB = inl ZeroDivisionError.
Proof.
  apply more_nodes_than_names_raises.
  - reflexivity.
  - vm_compute. discriminate.
  - vm_compute. reflexivity.
Defined.

(** X10: with the same node names and a node count of 0 or less (a graph
    without nodes), the loop over the sizes is empty, the divisor N-1 is
    not zero, and the constructor returns an instance whose three metrics
    are 0. *)
Theorem no_nodes_all_zero (truth est : Graph) :
  set_eq (node_names truth) (node_names est) = true ->
  get_num_nodes truth <= 0 ->
  exists self, SCM truth est = inr self
               /\ (get_s_metric self == 0)%Q
               /\ (get_c_metric self == 0)%Q
               /\ (get_sc_metric self == 0)%Q.
Proof.
  intros Hset HN.
  assert (Hs : sizes (get_num_nodes truth) = []).
  { unfold sizes. now replace (Z.to_nat (get_num_nodes truth - 2)) with O by lia. }
  exists (built truth est). split.
  - apply SCM_built; [exact Hset|lia|].
    intros k Hk. rewrite Hs in Hk. destruct Hk.
  - unfold built, get_s_metric, get_c_metric, get_sc_metric.
    rewrite Hs. cbn [after_sizes fold_left __SM __CM __SCM].
    unfold Qdiv. rewrite Qmult_0_l. repeat split; reflexivity.
Qed.

Lemma no_nodes_all_zero_witness :
  exists self, SCM no_nodes no_nodes = inr self
               /\ (get_s_metric self == 0)%Q
               /\ (get_c_metric self == 0)%Q
               /\ (get_sc_metric self == 0)%Q.
Proof.
  apply no_nodes_all_zero; [reflexivity|vm_compute; discriminate].
Defined.

(** ** The exceptions raised *)

(** X11: the constructor raises nothing but the assertion error with its
    fixed message and ZeroDivisionError, and it raises the assertion error
    exactly when the two sets of node names differ. *)
Theorem exceptions_raised (truth est : Graph) :
  (forall e, SCM truth est = inl e -> e = mismatch \/ e = ZeroDivisionError)
  /\ (SCM truth est = inl mismatch
      <-> ~ (forall x, In x (node_names truth) <-> In x (node_names est))).
Proof.
  rewrite <- set_eq_spec.
  destruct (SCM_cases truth est)
    as [[Hs E]|[(Hs & _ & E)|(Hs & _ & _ & E)]]; rewrite E, Hs; split.
  - intros e [= <-]. now left.
  - split; [discriminate|reflexivity].
  - intros e [= <-]. now right.
  - split; [discriminate|]. intros H. now destruct H.
  - discriminate.
  - split; [discriminate|]. intros H. now destruct H.
Qed.

(** ** Graphs with the same answers *)

Lemma count_zero_inv {A : Type} (p : A -> bool) (l : list A) :
  count p l = 0 -> forall x, In x l -> p x = false.
Proof.
  induction l as [|y l IH]; intros H x []; rewrite count_cons in H;
    pose proof (count_nonneg p l); destruct (p y) eqn:E; try lia.
  - now subst.
  - apply IH; [lia|assumption].
Qed.

Lemma Qsum_zero_inv (f : Z -> Q) (ks : list Z) :
  (forall k, In k ks -> (0 <= f k)%Q) ->
  (Qsum (map f ks) == 0)%Q ->
  forall k, In k ks -> (f k == 0)%Q.
Proof.
  induction ks as [|k0 ks IH]; intros Hpos Hsum k []; simpl in Hsum.
  - subst k0. apply Qle_antisym; [|apply Hpos; now left].
    rewrite <- Hsum. rewrite <- (Qplus_0_r (f k)) at 1.
    apply Qplus_le_compat; [apply Qle_refl|].
    apply Qsum_nonneg. intros; apply Hpos; now right.
  - apply IH; try assumption; [intros; apply Hpos; now right|].
    apply Qle_antisym; [|apply Qsum_nonneg; intros; apply Hpos; now right].
    rewrite <- Hsum. rewrite <- (Qplus_0_l (Qsum (map f ks))) at 1.
    apply Qplus_le_compat; [apply Hpos; now left|apply Qle_refl].
Qed.

Lemma ratio_zero_inv (a b : Z) :
  0 < b -> (inject_Z a / inject_Z b == 0)%Q -> a = 0.
Proof.
  intros Hb H.
  assert (Hnz : ~ (inject_Z b == 0)%Q).
  { change 0%Q with (inject_Z 0). rewrite inject_Z_injective. lia. }
  assert (E : (inject_Z a == 0)%Q).
  { rewrite <- (Qmult_div_r (inject_Z a) (inject_Z b) Hnz).
    rewrite H. apply Qmult_0_r. }
  unfold Qeq in E. simpl in E. lia.
Qed.

Lemma count_agree_zero (truth est : Graph) (l : list triple) :
  (forall t, In t l -> dconnected truth t = dconnected est t) ->
  count (is_spurious truth est) l = 0
  /\ count (is_disagreement truth est) l = 0.
Proof.
  intros H. split.
  - rewrite (count_ext _ (fun _ => false)); [now apply count_never|].
    intros t Ht. unfold is_spurious. rewrite (H t Ht).
    now destruct (dconnected est t).
  - rewrite (count_ext _ (fun _ => false)); [now apply count_never|].
    intros t Ht. unfold is_disagreement. rewrite (H t Ht).
    now destruct (dconnected est t).
Qed.

(** X8: on every instance the constructor returns, the sc-metric is 0
    exactly when the two graphs answer alike on every triple queried, and
    in that case the s-metric and the value of [get_c_metric] are 0 too. *)
Theorem sc_metric_zero_iff_agree (truth est : Graph) (self : metrics) :
  SCM truth est = inr self ->
  ((get_sc_metric self == 0)%Q <-> agree_on_sizes truth est)
  /\ (agree_on_sizes truth est ->
      (get_s_metric self == 0)%Q /\ (get_c_metric self == 0)%Q).
Proof.
  intros H. apply SCM_inr_inv in H as (_ & HN & Hden & ->).
  assert (HQ : forall q : Q, (0 / q == 0)%Q)
    by (intros q; unfold Qdiv; apply Qmult_0_l).
  assert (Hzero : agree_on_sizes truth est ->
                  (get_s_metric (built truth est) == 0)%Q
                  /\ (get_c_metric (built truth est) == 0)%Q
                  /\ (get_sc_metric (built truth est) == 0)%Q).
  { intros Hag.
    rewrite built_s_metric, built_c_metric, built_sc_metric.
    unfold spec_s_metric, spec_sc_metric.
    repeat split; (rewrite Qsum_zero; [apply HQ|]); intros k Hk;
      destruct (count_agree_zero truth est (triples_of_size truth k) (Hag k Hk))
        as [Es Ed];
      unfold spec_s_score, code_c_score, spec_sc_score,
        spurious_count, disagreement_count;
      rewrite ?Es, ?Ed; apply zero_over. }
  split; [split|].
  - intros Hsc k Hk t Ht.
    rewrite built_sc_metric in Hsc. unfold spec_sc_metric in Hsc.
    assert (H2 : 2 <= get_num_nodes truth).
    { destruct (Z_lt_le_dec (get_num_nodes truth) 2) as [Hlt|Hge]; [|exact Hge].
      exfalso. unfold sizes in Hk.
      replace (Z.to_nat (get_num_nodes truth - 2)) with O in Hk by lia.
      destruct Hk. }
    assert (Hsum : (Qsum (map (spec_sc_score truth est)
                              (sizes (get_num_nodes truth))) == 0)%Q).
    { assert (Hnz : ~ (inject_Z (get_num_nodes truth - 1) == 0)%Q).
      { change 0%Q with (inject_Z 0). rewrite inject_Z_injective. lia. }
      rewrite <- (Qmult_div_r _ _ Hnz). rewrite Hsc. apply Qmult_0_r. }
    assert (Htot : forall k', In k' (sizes (get_num_nodes truth)) ->
                              0 < connected_count truth k'
                                  + separated_count truth k').
    { intros k' Hk'. destruct (Hden k' Hk').
      pose proof (count_nonneg (is_connected truth) (triples_of_size truth k')).
      pose proof (count_nonneg (is_separated truth) (triples_of_size truth k')).
      unfold connected_count, separated_count in *. lia. }
    assert (Hk0 : (spec_sc_score truth est k == 0)%Q).
    { apply (Qsum_zero_inv (spec_sc_score truth est)
                           (sizes (get_num_nodes truth))); try assumption.
      intros k' Hk'. unfold spec_sc_score. apply Qle_shift_div_l.
      - change 0%Q with (inject_Z 0). rewrite <- Zlt_Qlt. now apply Htot.
      - rewrite Qmult_0_l. change 0%Q with (inject_Z 0). rewrite <- Zle_Qle.
        apply count_nonneg. }
    apply ratio_zero_inv in Hk0; [|now apply Htot].
    pose proof (count_zero_inv _ _ Hk0 t Ht) as Hd.
    unfold is_disagreement in Hd.
    now destruct (dconnected truth t), (dconnected est t).
  - intros Hag. now apply Hzero.
  - intros Hag. destruct (Hzero Hag) as (? & ? & ?). now split.
Qed.

Lemma sc_metric_zero_iff_agree_witness :
  ((get_sc_metric (built chain_ABC edge_AB_3) == 0)%Q
   <-> agree_on_sizes chain_ABC edge_AB_3)
  /\ (agree_on_sizes chain_ABC edge_AB_3 ->
      (get_s_metric (built chain_ABC edge_AB_3) == 0)%Q
      /\ (get_c_metric (built chain_ABC edge_AB_3) == 0)%Q).
Proof.
  apply (sc_metric_zero_iff_agree chain_ABC edge_AB_3).
  vm_compute. reflexivity.
Defined.

(** ** Independence of the node maps *)

Lemma set_eq_ext (a a' b b' : list string) :
  (forall x, In x a <-> In x a') -> (forall x, In x b <-> In x b') ->
  set_eq a b = set_eq a' b'.
Proof.
  intros Ha Hb.
  destruct (set_eq a b) eqn:E, (set_eq a' b') eqn:E'; try reflexivity.
  - rewrite set_eq_spec in E.
    assert (E2 : set_eq a' b' = true)
      by (apply set_eq_spec; intros x; rewrite <- Ha, <- Hb; apply E).
    congruence.
  - rewrite set_eq_spec in E'.
    assert (E2 : set_eq a b = true)
      by (apply set_eq_spec; intros x; rewrite Ha, Hb; apply E').
    congruence.
Qed.

Lemma k_loop_ext (t1 e1 t2 e2 : Graph) (items1 items2 : list (string * Z))
      (ks : list Z) (self : metrics) :
  (forall k, loop_k t1 e1 items1 k = loop_k t2 e2 items2 k) ->
  k_loop t1 e1 items1 ks self = k_loop t2 e2 items2 ks self.
Proof.
  intros H. revert self; induction ks as [|k ks IH]; intros self; simpl.
  - reflexivity.
  - unfold k_step. rewrite H.
    destruct (py_div _ _) as [e|s]; [reflexivity|]. cbn [bind].
    destruct (py_div _ _) as [e|c]; [reflexivity|]. cbn [bind].
    destruct (py_div _ _) as [e|sc]; [reflexivity|]. cbn [bind ret].
    apply IH.
Qed.

Section NodeMaps.

Variables truth est : Graph.
Variable m : list (Node truth * Z).
Variable m' : list (Node est * Z).

Hypothesis truth_set : conditioning_is_set truth.
Hypothesis est_set : conditioning_is_set est.
Hypothesis truth_names :
  forall x, In x (node_names truth) <-> In x (node_names (with_node_map truth m)).

Lemma count_other_map (p : triple -> bool) (k : Z) :
  (forall x y s s', Permutation s s' -> p (x, y, s) = p (x, y, s')) ->
  count p (triples_of_size (with_node_map truth m) k)
  = count p (triples_of_size truth k).
Proof.
  intros Hp. unfold triples_of_size. apply count_triples_perm; [|exact Hp].
  apply NoDup_Permutation; try apply NoDup_node_names.
  intros x. symmetry. apply truth_names.
Qed.

Lemma loop_k_other_map (k : Z) :
  loop_k (with_node_map truth m) (with_node_map est m')
         (name_map (with_node_map truth m)) k
  = loop_k truth est (name_map truth) k.
Proof.
  rewrite !loop_k_counts.
  unfold spurious_count, missed_count, disagreement_count, connected_count,
    separated_count.
  change (is_spurious (with_node_map truth m) (with_node_map est m'))
    with (is_spurious truth est).
  change (is_missed (with_node_map truth m) (with_node_map est m'))
    with (is_missed truth est).
  change (is_disagreement (with_node_map truth m) (with_node_map est m'))
    with (is_disagreement truth est).
  change (is_connected (with_node_map truth m)) with (is_connected truth).
  change (is_separated (with_node_map truth m)) with (is_separated truth).
  rewrite !count_other_map; [reflexivity| | | | |];
    intros x y s s' Hp;
    unfold is_spurious, is_missed, is_disagreement, is_connected, is_separated;
    rewrite ?(dconnected_perm truth x y s s' truth_set Hp),
      ?(dconnected_perm est x y s s' est_set Hp); reflexivity.
Qed.

End NodeMaps.

(** X9: if [is_dconnected_to] of both graphs reads its conditioning
    argument as a set, the outcome of the constructor, instance or
    exception, is the same for any other [node_map] of truth and of est
    with the same node names: the order of the maps, their ids and
    repeated names play no role. *)
Theorem node_maps_irrelevant (truth est : Graph)
        (m : list (Node truth * Z)) (m' : list (Node est * Z)) :
  conditioning_is_set truth -> conditioning_is_set est ->
  (forall x, In x (node_names truth)
             <-> In x (node_names (with_node_map truth m))) ->
  (forall x, In x (node_names est)
             <-> In x (node_names (with_node_map est m'))) ->
  SCM (with_node_map truth m) (with_node_map est m') = SCM truth est.
Proof.
  intros Ht He Hnt Hne. unfold SCM.
  fold (node_names (with_node_map truth m))
       (node_names (with_node_map est m'))
       (node_names truth) (node_names est).
  rewrite (set_eq_ext (node_names (with_node_map truth m)) (node_names truth)
                      (node_names (with_node_map est m')) (node_names est))
    by (intros x; symmetry; auto).
  destruct (set_eq (node_names truth) (node_names est)); [|reflexivity].
  cbn [negb]. change (get_num_nodes (with_node_map truth m))
    with (get_num_nodes truth).
  rewrite (k_loop_ext (with_node_map truth m) (with_node_map est m')
                      truth est _ (name_map truth));
    [reflexivity|].
  intros k. now apply loop_k_other_map.
Qed.

Lemma complete_ABC_set : conditioning_is_set complete_ABC.
Proof. intros x y s s' _. reflexivity. Qed.

Lemma node_maps_irrelevant_witness :
  SCM (with_node_map chain_ABC
         [("C", 5); ("B", 7); ("A", 9)]%string)
      (with_node_map complete_ABC [("B", 0); ("A", 0); ("C", 0)]%string)
  = SCM chain_ABC complete_ABC.
Proof.
  apply node_maps_irrelevant.
  - exact chain_ABC_set.
  - exact complete_ABC_set.
  - intros x. vm_compute. tauto.
  - intros x. vm_compute. tauto.
Defined.

(** ** Dependence on the answers only *)

Lemma k_loop_ext_in (t1 e1 t2 e2 : Graph) (items1 items2 : list (string * Z))
      (ks : list Z) (self : metrics) :
  (forall k, In k ks -> loop_k t1 e1 items1 k = loop_k t2 e2 items2 k) ->
  k_loop t1 e1 items1 ks self = k_loop t2 e2 items2 ks self.
Proof.
  revert self; induction ks as [|k ks IH]; intros self H; simpl.
  - reflexivity.
  - unfold k_step. rewrite (H k (or_introl eq_refl)).
    destruct (py_div _ _) as [e|s]; [reflexivity|]. cbn [bind].
    destruct (py_div _ _) as [e|c]; [reflexivity|]. cbn [bind].
    destruct (py_div _ _) as [e|sc]; [reflexivity|]. cbn [bind ret].
    apply IH. intros k' Hk'. apply H. now right.
Qed.

Lemma loop_k_same_answers (truth est truth' est' : Graph) (k : Z) :
  node_names truth' = node_names truth ->
  In k (sizes (get_num_nodes truth)) ->
  same_answers truth truth truth' -> same_answers truth est est' ->
  loop_k truth' est' (name_map truth') k = loop_k truth est (name_map truth) k.
Proof.
  intros Hn Hk Ht He. rewrite !loop_k_counts.
  unfold spurious_count, missed_count, disagreement_count, connected_count,
    separated_count, triples_of_size.
  rewrite Hn. fold (triples_of_size truth k).
  f_equal; [f_equal| f_equal | f_equal | | ]; apply count_ext; intros t Hin;
    unfold is_spurious, is_missed, is_disagreement, is_connected, is_separated;
    rewrite <- ?(Ht k Hk t Hin), <- ?(He k Hk t Hin); reflexivity.
Qed.

(** X12: the outcome depends on the two graphs only through the node
    names, the node count and the answers to the d-connection queries the
    constructor makes (the triples of the sizes 1..N-2): two pairs of
    graphs, possibly with other node handles or other answers elsewhere,
    that agree on these give the same instance or the same exception. *)
Theorem outcome_depends_on_answers (truth est truth' est' : Graph) :
  node_names truth' = node_names truth ->
  get_num_nodes truth' = get_num_nodes truth ->
  (forall x, In x (node_names est') <-> In x (node_names est)) ->
  same_answers truth truth truth' ->
  same_answers truth est est' ->
  SCM truth' est' = SCM truth est.
Proof.
  intros Hn HN Hne Ht He. unfold SCM.
  fold (node_names truth') (node_names est') (node_names truth)
       (node_names est).
  rewrite (set_eq_ext (node_names truth') (node_names truth)
                      (node_names est') (node_names est))
    by (assumption || (intros x; rewrite Hn; tauto)).
  destruct (set_eq (node_names truth) (node_names est)); [|reflexivity].
  cbn [negb]. rewrite HN.
  rewrite (k_loop_ext_in truth' est' truth est _ (name_map truth));
    [reflexivity|].
  intros k Hk. rewrite range_sizes in Hk. now apply loop_k_same_answers.
Qed.

Lemma outcome_depends_on_answers_witness :
  SCM chain_ABC_nonempty edge_AB_3_nat = SCM chain_ABC edge_AB_3.
Proof.
  apply outcome_depends_on_answers.
  - reflexivity.
  - reflexivity.
  - intros x. vm_compute. tauto.
  - intros k Hk t Ht. vm_compute in Hk. destruct Hk as [<-|[]].
    vm_compute in Ht.
    repeat (destruct Ht as [<-|Ht]; [reflexivity|]). destruct Ht.
  - intros k Hk t Ht. vm_compute in Hk. destruct Hk as [<-|[]].
    vm_compute in Ht.
    repeat (destruct Ht as [<-|Ht]; [reflexivity|]). destruct Ht.
Defined.

(** The two graphs of the example do differ where the constructor does not
    look. *)
Example chain_ABC_nonempty_differs :
  dconnected chain_ABC ("A", "B", [])%string = true
  /\ dconnected chain_ABC_nonempty ("A", "B", [])%string = false.
Proof. split; reflexivity. Qed.

(** ** When the s-metric vanishes *)

Lemma average_zero_iff (a b : Z -> Z) (N : Z) :
  N <> 1 ->
  (forall k, In k (sizes N) -> 0 <= a k /\ 0 < b k) ->
  (Qsum (map (fun k => inject_Z (a k) / inject_Z (b k)) (sizes N))
   / inject_Z (N - 1) == 0)%Q
  <-> (forall k, In k (sizes N) -> a k = 0).
Proof.
  intros HN Hab. split.
  - intros H k Hk.
    assert (H2 : 2 <= N).
    { destruct (Z_lt_le_dec N 2) as [Hlt|Hge]; [|exact Hge].
      exfalso. unfold sizes in Hk.
      replace (Z.to_nat (N - 2)) with O in Hk by lia. destruct Hk. }
    assert (Hnz : ~ (inject_Z (N - 1) == 0)%Q).
    { change 0%Q with (inject_Z 0). rewrite inject_Z_injective. lia. }
    assert (Hsum : (Qsum (map (fun k => inject_Z (a k) / inject_Z (b k))
                              (sizes N)) == 0)%Q).
    { rewrite <- (Qmult_div_r _ _ Hnz). rewrite H. apply Qmult_0_r. }
    apply (ratio_zero_inv (a k) (b k)); [now apply Hab|].
    apply (Qsum_zero_inv (fun k => inject_Z (a k) / inject_Z (b k))%Q
                         (sizes N)); try assumption.
    intros k' Hk'. destruct (Hab k' Hk') as [Ha Hb].
    apply Qle_shift_div_l.
    + change 0%Q with (inject_Z 0). now rewrite <- Zlt_Qlt.
    + rewrite Qmult_0_l. change 0%Q with (inject_Z 0). now rewrite <- Zle_Qle.
  - intros H. rewrite Qsum_zero.
    + unfold Qdiv. apply Qmult_0_l.
    + intros k Hk. rewrite (H k Hk). apply zero_over.
Qed.

Lemma spurious_zero_iff (truth est : Graph) (l : list triple) :
  count (is_spurious truth est) l = 0
  <-> (forall t, In t l -> dconnected truth t = false ->
                 dconnected est t = false).
Proof.
  split.
  - intros H t Ht Hsep. pose proof (count_zero_inv _ _ H t Ht) as E.
    unfold is_spurious in E. rewrite Hsep in E. exact E.
  - intros H. rewrite (count_ext _ (fun _ => false)); [now apply count_never|].
    intros t Ht. unfold is_spurious.
    destruct (dconnected truth t) eqn:E; [reflexivity|].
    now rewrite (H t Ht E).
Qed.

(** X13: on every instance the constructor returns, the s-metric is 0
    exactly when no queried triple is d-separated in truth and d-connected
    in est, and the value of [get_c_metric] is 0 exactly when the s-metric
    is 0. *)
Theorem s_metric_zero_iff (truth est : Graph) (self : metrics) :
  SCM truth est = inr self ->
  ((get_s_metric self == 0)%Q <-> no_spurious_connection truth est)
  /\ ((get_c_metric self == 0)%Q <-> (get_s_metric self == 0)%Q).
Proof.
  intros H. apply SCM_inr_inv in H as (_ & HN & Hden & ->).
  assert (Hs : (get_s_metric (built truth est) == 0)%Q
               <-> forall k, In k (sizes (get_num_nodes truth)) ->
                             spurious_count truth est k = 0).
  { rewrite built_s_metric. unfold spec_s_metric; cbv zeta.
    apply (average_zero_iff (spurious_count truth est)
                            (separated_count truth)); [exact HN|].
    intros k Hk. destruct (Hden k Hk) as [_ Hsep].
    pose proof (count_nonneg (is_separated truth) (triples_of_size truth k)).
    split; [apply count_nonneg|]. unfold separated_count in *. lia. }
  assert (Hc : (get_c_metric (built truth est) == 0)%Q
               <-> forall k, In k (sizes (get_num_nodes truth)) ->
                             spurious_count truth est k = 0).
  { rewrite built_c_metric.
    apply (average_zero_iff (spurious_count truth est)
                            (connected_count truth)); [exact HN|].
    intros k Hk. destruct (Hden k Hk) as [Hcon _].
    pose proof (count_nonneg (is_connected truth) (triples_of_size truth k)).
    split; [apply count_nonneg|]. unfold connected_count in *. lia. }
  split.
  - rewrite Hs. unfold no_spurious_connection. split.
    + intros H k Hk. apply spurious_zero_iff. now apply H.
    + intros H k Hk. apply spurious_zero_iff. now apply H.
  - now rewrite Hs, Hc.
Qed.

Lemma s_metric_zero_iff_witness :
  ((get_s_metric (built chain_ABC edge_AB_3) == 0)%Q
   <-> no_spurious_connection chain_ABC edge_AB_3)
  /\ ((get_c_metric (built chain_ABC edge_AB_3) == 0)%Q
      <-> (get_s_metric (built chain_ABC edge_AB_3) == 0)%Q).
Proof.
  apply (s_metric_zero_iff chain_ABC edge_AB_3).
  vm_compute. reflexivity.
Defined.

(** ** Zero denominators *)

Lemma Qsum_le_sum_over (f : Z -> Q) (g : Z -> Z) (ks : list Z) :
  (forall k, In k ks -> (f k <= inject_Z (g k))%Q) ->
  (Qsum (map f ks) <= inject_Z (sum_over g ks))%Q.
Proof.
  induction ks as [|k ks IH]; intros H; simpl.
  - apply Qle_refl.
  - rewrite inject_Z_plus. apply Qplus_le_compat.
    + apply H. now left.
    + apply IH. intros; apply H; now right.
Qed.

Lemma code_c_score_bounds (truth est : Graph) (k : Z) :
  connected_count truth k <> 0 ->
  (0 <= code_c_score truth est k <= inject_Z (separated_count truth k))%Q.
Proof.
  intros Hc.
  pose proof (count_nonneg (is_connected truth) (triples_of_size truth k)) as H0.
  pose proof (count_nonneg (is_spurious truth est) (triples_of_size truth k))
    as H1.
  assert (H2 : spurious_count truth est k <= separated_count truth k).
  { apply count_le_of_imp. intros t. unfold is_spurious, is_separated.
    now destruct (dconnected truth t). }
  fold (connected_count truth k) in H0. fold (spurious_count truth est k) in H1.
  assert (Hpos : (0 < inject_Z (connected_count truth k))%Q)
    by (change 0%Q with (inject_Z 0); rewrite <- Zlt_Qlt; lia).
  unfold code_c_score. split.
  - apply Qle_shift_div_l; [exact Hpos|].
    rewrite Qmult_0_l. change 0%Q with (inject_Z 0). now rewrite <- Zle_Qle.
  - apply Qle_shift_div_r; [exact Hpos|].
    rewrite <- inject_Z_mult, <- Zle_Qle. nia.
Qed.

(** The value of [get_c_metric] on an instance is at most the number of
    triples that are d-separated in truth. *)
Lemma c_metric_bounds (truth est : Graph) (self : metrics) :
  SCM truth est = inr self ->
  (0 <= get_c_metric self
   <= inject_Z (sum_over (separated_count truth)
                         (sizes (get_num_nodes truth))))%Q.
Proof.
  intros H. apply SCM_inr_inv in H as (_ & HN & Hden & ->).
  rewrite built_c_metric.
  set (N := get_num_nodes truth) in *.
  set (q := Qsum (map (code_c_score truth est) (sizes N))).
  assert (Hq0 : (0 <= q)%Q).
  { apply Qsum_nonneg. intros k Hk. destruct (Hden k Hk) as [Hc _].
    now apply code_c_score_bounds. }
  assert (Hq1 : (q <= inject_Z (sum_over (separated_count truth) (sizes N)))%Q).
  { apply Qsum_le_sum_over. intros k Hk. destruct (Hden k Hk) as [Hc _].
    now apply code_c_score_bounds. }
  destruct (Z_lt_le_dec N 2) as [Hlt|Hge].
  - assert (Hs : sizes N = [])
      by (unfold sizes; now replace (Z.to_nat (N - 2)) with O by lia).
    subst q. rewrite Hs. simpl. unfold Qdiv. rewrite Qmult_0_l.
    split; apply Qle_refl.
  - assert (Hpos : (0 < inject_Z (N - 1))%Q)
      by (change 0%Q with (inject_Z 0); rewrite <- Zlt_Qlt; lia).
    split.
    + apply Qle_shift_div_l; [exact Hpos|]. now rewrite Qmult_0_l.
    + apply Qle_shift_div_r; [exact Hpos|].
      eapply Qle_trans; [exact Hq1|].
      rewrite <- inject_Z_mult, <- Zle_Qle.
      assert (0 <= sum_over (separated_count truth) (sizes N)).
      { rewrite Zle_Qle. eapply Qle_trans; [exact Hq0|exact Hq1]. }
      nia.
Qed.

(** C7, as the constructor behaves: with the same node names, no size with
    a zero denominator is skipped or counted as 0.  The constructor raises
    ZeroDivisionError exactly when N = 1 or some size k in 1..N-2 has a
    zero connected-triple count or a zero separated-triple count, and
    returns an instance in every other case.  On an instance the accessors
    return bounded numbers: the s-metric and the sc-metric lie in [0, 1),
    and the value of [get_c_metric] lies between 0 and the number of
    triples d-separated in truth. *)
Theorem zero_denominator_raises (truth est : Graph) :
  set_eq (node_names truth) (node_names est) = true ->
  (SCM truth est = inl ZeroDivisionError
   <-> get_num_nodes truth = 1 \/ some_zero_denominator truth)
  /\ ((exists self, SCM truth est = inr self)
      <-> get_num_nodes truth <> 1 /\ denominators_nonzero truth)
  /\ (forall self, SCM truth est = inr self ->
        (0 <= get_s_metric self)%Q /\ (get_s_metric self < 1)%Q
        /\ (0 <= get_sc_metric self)%Q /\ (get_sc_metric self < 1)%Q
        /\ (0 <= get_c_metric self)%Q
        /\ (get_c_metric self
            <= inject_Z (sum_over (separated_count truth)
                                  (sizes (get_num_nodes truth))))%Q).
Proof.
  intros Hset.
  destruct (SCM_raises_iff truth est Hset) as [H1 H2].
  split; [exact H1|]. split; [exact H2|].
  intros self H.
  destruct (s_and_sc_metric_in_unit truth est self H) as [[Hs _] [Hsc _]].
  destruct (c_metric_bounds truth est self H) as [Hc0 Hc1].
  split; [exact Hs|]. split; [|split; [exact Hsc|split; [|split; assumption]]];
    apply SCM_inr_inv in H as (_ & HN & Hden & ->).
  - rewrite built_s_metric. unfold spec_s_metric.
    apply average_below_one; [exact HN|]. intros k Hk.
    destruct (Hden k Hk) as [_ Hsep].
    apply ratio_in_unit; [|exact Hsep]. split; [apply count_nonneg|].
    apply count_le_of_imp. intros t. unfold is_spurious, is_separated.
    now destruct (dconnected truth t).
  - rewrite built_sc_metric. unfold spec_sc_metric.
    apply average_below_one; [exact HN|]. intros k Hk.
    destruct (Hden k Hk) as [Hc Hsep].
    pose proof (count_nonneg (is_connected truth) (triples_of_size truth k)).
    pose proof (count_nonneg (is_separated truth) (triples_of_size truth k)).
    apply ratio_in_unit.
    + split; [apply count_nonneg|].
      unfold connected_count, separated_count.
      rewrite count_partition. apply count_le_length.
    + unfold connected_count, separated_count in *. lia.
Qed.

Lemma zero_denominator_raises_witness :
  SCM edge_AB_4 complete_ABCD = inr (built edge_AB_4 complete_ABCD)
  /\ SCM edge_AB_4 complete_ABCD <> inl ZeroDivisionError
  /\ (0 <= get_s_metric (built edge_AB_4 complete_ABCD))%Q
  /\ (get_s_metric (built edge_AB_4 complete_ABCD) < 1)%Q
  /\ (0 <= get_sc_metric (built edge_AB_4 complete_ABCD))%Q
  /\ (get_sc_metric (built edge_AB_4 complete_ABCD) < 1)%Q
  /\ (0 <= get_c_metric (built edge_AB_4 complete_ABCD))%Q
  /\ (get_c_metric (built edge_AB_4 complete_ABCD) <= 30 # 1)%Q.
Proof.
  assert (E : SCM edge_AB_4 complete_ABCD
              = inr (built edge_AB_4 complete_ABCD))
    by (vm_compute; reflexivity).
  destruct (zero_denominator_raises edge_AB_4 complete_ABCD eq_refl)
    as (H1 & H2 & H3).
  split; [exact E|]. split.
  - intros H. apply H1 in H. destruct H as [H|(k & Hk & H)].
    + vm_compute in H. discriminate H.
    + vm_compute in Hk.
      destruct Hk as [<-|[<-|[]]]; vm_compute in H;
        destruct H as [H|H]; discriminate H.
  - exact (H3 (built edge_AB_4 complete_ABCD) E).
Defined.
